(** * Crawly: the rate-limited command queue and the render bridge

    A shallow embedding of [crawly/crawly.py]: the [TimedQueue] class, the
    module-level [Data] object, the flush operations [draw] / [redraw], the
    composite executor [do_draw] and the window loop [pygame_loop].

    Modelling conventions.
    - Python floats ([time.time()], [cooldown], [time_since], [t]) are
      binary64 values, Rocq's primitive [float]: [+], [-], [/] and [<?]
      round and compare as the machine does.  Python ints are [Z].
    - Python lists are mutable objects.  A queued command holds a reference
      ([ListRef]) to a list object, so that [ls = data.draw_list] (an alias
      of the pending list) and [ls = data.draw_list.copy()] (a new object in
      the store [snapshots]) differ.
    - A draw item ([functools.partial] of a pygame primitive) is opaque: it
      has an identity and either returns or raises.
    - What the render thread does to the window and the console is recorded
      as a trace of [Effect]s. *)

From Stdlib Require Import ZArith Bool Ascii String List Lia Floats.
From stdpp Require Import base list strings.
Import ListNotations.

(** ** Python equality

    [list.remove(x)] deletes the first element [e] with [e is x or e == x].
    The identity test makes the comparison reflexive whatever [__eq__] does;
    that is all the queue relies on. *)

Class PyEq (A : Type) := {
  py_eq : A -> A -> bool;
  py_eq_refl : forall x : A, py_eq x x = true
}.

(** Python ints compare by value. *)
#[global] Instance nat_PyEq : PyEq nat :=
  {| py_eq := Nat.eqb; py_eq_refl := Nat.eqb_refl |}.

(** [l.remove(x)]: drop the first element equal to [x].  (Python raises
    [ValueError] when there is none; [_pop] only ever removes [l[0]].) *)
Fixpoint list_remove {A : Type} `{PyEq A} (x : A) (l : list A) : list A :=
  match l with
  | [] => []
  | e :: rest => if py_eq e x then rest else e :: list_remove x rest
  end.

(** [a > b] on floats; false when either side is NaN. *)
Definition float_gt (a b : float) : bool := (b <? a)%float.

(** The float Python makes of an int, as [int / float] does with its left
    operand: the nearest binary64 value, ties to even.  (Python raises
    [OverflowError] where this gives infinity, from 2^1024 on.) *)
Definition float_of_int (z : Z) : float :=
  SF2Prim (binary_normalize prec emax z 0 false).

(** ** class TimedQueue *)

Module TimedQueue.

Section Queue.
Context {A : Type} `{PyEq A}.

Record t_ : Type := mk {
  elements : list A;
  cooldown : float;    (* seconds *)
  time_since : float;  (* seconds accumulated since the gate last opened *)
  t : float            (* clock reading of the previous [pop] *)
}.

(** [__init__(self, cooldown)]; [cooldown / 1000.0] is a float division,
    which makes a float of an int argument first ([float_of_int]). *)
Definition init (cooldown_ms : float) : t_ :=
  {| elements := [];
     cooldown := (cooldown_ms / 1000)%float;
     time_since := 0%float;
     t := 0%float |}.

(** [set_cooldown(self, cool)] *)
Definition set_cooldown (cool : float) (q : t_) : t_ :=
  {| elements := elements q;
     cooldown := (cool / 1000)%float;
     time_since := time_since q;
     t := t q |}.

(** [push(self, el)] *)
Definition push (el : A) (q : t_) : t_ :=
  {| elements := elements q ++ [el];
     cooldown := cooldown q;
     time_since := time_since q;
     t := t q |}.

(** [_pop(self)]: [elements[0]] raises [IndexError] on the empty list, which
    the method turns into [None]. *)
Definition _pop (q : t_) : option A * t_ :=
  match elements q with
  | [] => (None, q)
  | el :: _ =>
      (Some el,
       {| elements := list_remove el (elements q);
          cooldown := cooldown q;
          time_since := time_since q;
          t := t q |})
  end.

(** [pop(self)].  The method reads the clock twice: [now1] is the value
    bound to the local [t], [now2] the value used in the subtraction. *)
Definition pop (now1 now2 : float) (q : t_) : option A * t_ :=
  let q1 := {| elements := elements q;
               cooldown := cooldown q;
               time_since := (time_since q + (now2 - t q))%float;
               t := now1 |} in
  if float_gt (time_since q1) (cooldown q1) then
    _pop {| elements := elements q1;
            cooldown := cooldown q1;
            time_since := 0%float;
            t := t q1 |}
  else (None, q1).

(** The value [time_since] holds when [pop] tests the gate. *)
Definition accumulated (now2 : float) (q : t_) : float :=
  (time_since q + (now2 - t q))%float.

(** The test [pop] makes: [self.time_since > self.cooldown], once the
    addition is done. *)
Definition gate (now2 : float) (q : t_) : bool :=
  float_gt (accumulated now2 q) (cooldown q).

(** Operations a client can apply to a queue, and their replay. *)
Inductive op : Type :=
| Push (el : A)
| Pop (now1 now2 : float)
| SetCooldown (cool : float).

Definition run_op (o : op) (q : t_) : option A * t_ :=
  match o with
  | Push el => (None, push el q)
  | Pop now1 now2 => pop now1 now2 q
  | SetCooldown cool => (None, set_cooldown cool q)
  end.

(** Replays [ops] in order; the elements handed out, oldest first, and the
    final queue. *)
Fixpoint run (ops : list op) (q : t_) : list A * t_ :=
  match ops with
  | [] => ([], q)
  | o :: rest =>
      let '(r, q1) := run_op o q in
      let '(rs, q2) := run rest q1 in
      (match r with Some el => el :: rs | None => rs end, q2)
  end.

(** The elements pushed by a sequence of operations, oldest first. *)
Fixpoint pushed (ops : list op) : list A :=
  match ops with
  | [] => []
  | Push el :: rest => el :: pushed rest
  | _ :: rest => pushed rest
  end.

(** The gate is open on every poll of a run of polls, given the two clock
    readings of each. *)
Fixpoint gate_open_throughout (clock : list (float * float)) (q : t_) : Prop :=
  match clock with
  | [] => True
  | (now1, now2) :: rest =>
      gate now2 q = true
      /\ gate_open_throughout rest (snd (pop now1 now2 q))
  end.

Definition polls (clock : list (float * float)) : list op :=
  map (fun c => Pop (fst c) (snd c)) clock.

End Queue.

Arguments t_ : clear implicits.
Arguments op : clear implicits.

End TimedQueue.

(** ** Draw items, list objects and queued commands *)

(** A draw item: [partial(pygame.draw.circle, ...)] and the like.  Calling it
    either returns or raises an [Exception] whose [str] is the payload. *)
Record Item : Type := {
  item_id : nat;
  item_raises : option string
}.

#[global] Instance Item_eq_dec : EqDecision Item.
Proof. solve_decision. Defined.

(** The list object a queued command holds on to.  [data.draw_list] is
    assigned once, in [Data.__init__], and mutated in place ever after, so it
    is one object for the whole run ([PendingList]); every
    [data.draw_list.copy()] creates a new object ([Snapshot n], the [n]-th
    copy made). *)
Inductive ListRef : Type :=
| PendingList
| Snapshot (n : nat).

#[global] Instance ListRef_eq_dec : EqDecision ListRef.
Proof. solve_decision. Defined.

(** A queue element [[do_draw, (refresh, ls)]]; [do_draw] is the only
    function the program ever queues. *)
Record Command : Type := {
  refresh : bool;
  captured : ListRef
}.

(** What the render thread does to the window and to the console. *)
Inductive Effect : Type :=
| Fill (colour : string)      (* [data.screen.fill(colour)] *)
| Call (i : Item)             (* [i()] *)
| Print (msg : string)        (* [print(msg)] *)
| Flip                        (* [pygame.display.flip()] *)
| PygameQuit.                 (* [pygame.quit()] *)

(** ** class Data

    The fields the bridge reads or writes.  Left out: [text_color],
    [poly_width], [poly_points] and [screen], which only feed the opaque
    pygame calls, and [pygame_thread] / [thread_lock], which are the
    scheduling itself.  [snapshots] is the store of the list objects created
    by [copy()]. *)
Record Data : Type := {
  ms : Z;
  color : string;
  background : string;
  draw_list : list Item;
  background_list : list Item;
  draw_background : bool;
  setup_complete : bool;
  render_commands : TimedQueue.t_ Command;
  done : bool;
  running : bool;
  snapshots : list (list Item)
}.

(** [Data.__init__] *)
Definition Data_init : Data :=
  {| ms := 1000;
     color := "black";
     background := "white";
     draw_list := [];
     background_list := [];
     draw_background := false;
     setup_complete := false;
     render_commands := TimedQueue.init (float_of_int 1000);
     done := false;
     running := false;
     snapshots := [] |}.

(** Contents of a list object. *)
Definition fetch (st : Data) (r : ListRef) : list Item :=
  match r with
  | PendingList => draw_list st
  | Snapshot n => default [] (snapshots st !! n)
  end.

(** [[do_draw, a] == [do_draw, b]]: element-wise, each element compared by
    identity first and by [==] next; the draw items inside a list are
    [partial] objects, which only compare by identity. *)
Definition command_eq (st : Data) (c1 c2 : Command) : bool :=
  Bool.eqb (refresh c1) (refresh c2)
  && (bool_decide (captured c1 = captured c2)
      || bool_decide (fetch st (captured c1) = fetch st (captured c2))).

Definition Command_PyEq (st : Data) : PyEq Command.
Proof.
  refine {| py_eq := command_eq st |}.
  intros c. unfold command_eq. rewrite Bool.eqb_reflx. simpl.
  rewrite bool_decide_eq_true_2; reflexivity.
Defined.

(** Field updates. *)
Definition with_queue (q : TimedQueue.t_ Command) (st : Data) : Data :=
  {| ms := ms st; color := color st; background := background st;
     draw_list := draw_list st; background_list := background_list st;
     draw_background := draw_background st;
     setup_complete := setup_complete st;
     render_commands := q;
     done := done st; running := running st; snapshots := snapshots st |}.

Definition with_draw_list (l : list Item) (st : Data) : Data :=
  {| ms := ms st; color := color st; background := background st;
     draw_list := l; background_list := background_list st;
     draw_background := draw_background st;
     setup_complete := setup_complete st;
     render_commands := render_commands st;
     done := done st; running := running st; snapshots := snapshots st |}.

Definition with_background_list (l : list Item) (st : Data) : Data :=
  {| ms := ms st; color := color st; background := background st;
     draw_list := draw_list st; background_list := l;
     draw_background := draw_background st;
     setup_complete := setup_complete st;
     render_commands := render_commands st;
     done := done st; running := running st; snapshots := snapshots st |}.

Definition with_snapshots (s : list (list Item)) (st : Data) : Data :=
  {| ms := ms st; color := color st; background := background st;
     draw_list := draw_list st; background_list := background_list st;
     draw_background := draw_background st;
     setup_complete := setup_complete st;
     render_commands := render_commands st;
     done := done st; running := running st; snapshots := s |}.

Definition with_draw_background (b : bool) (st : Data) : Data :=
  {| ms := ms st; color := color st; background := background st;
     draw_list := draw_list st; background_list := background_list st;
     draw_background := b;
     setup_complete := setup_complete st;
     render_commands := render_commands st;
     done := done st; running := running st; snapshots := snapshots st |}.

Definition with_flags (setup done_ running_ : bool) (st : Data) : Data :=
  {| ms := ms st; color := color st; background := background st;
     draw_list := draw_list st; background_list := background_list st;
     draw_background := draw_background st;
     setup_complete := setup;
     render_commands := render_commands st;
     done := done_; running := running_; snapshots := snapshots st |}.

(** [ls.clear()] / [ls.append(x)] on a list object. *)
Definition clear_list (r : ListRef) (st : Data) : Data :=
  match r with
  | PendingList => with_draw_list [] st
  | Snapshot n => with_snapshots (<[n := []]> (snapshots st)) st
  end.

(** ** The caller-facing functions *)

(** [set_speed(speed)] *)
Definition set_speed (speed : Z) (st : Data) : Data :=
  let speed := if (speed <? 1)%Z then 1%Z
               else if (10 <? speed)%Z then 10%Z
               else speed in
  let ms' := (33 + 197 * (10 - speed))%Z in
  {| ms := ms'; color := color st; background := background st;
     draw_list := draw_list st; background_list := background_list st;
     draw_background := draw_background st;
     setup_complete := setup_complete st;
     render_commands :=
       TimedQueue.set_cooldown (float_of_int ms') (render_commands st);
     done := done st; running := running st; snapshots := snapshots st |}.

(** [set_color(new_color)] *)
Definition set_color (new_color : string) (st : Data) : Data :=
  {| ms := ms st; color := new_color; background := background st;
     draw_list := draw_list st; background_list := background_list st;
     draw_background := draw_background st;
     setup_complete := setup_complete st;
     render_commands := render_commands st;
     done := done st; running := running st; snapshots := snapshots st |}.

(** [background_begin()], [background_end()] *)
Definition background_begin (st : Data) : Data := with_draw_background true st.
Definition background_end (st : Data) : Data := with_draw_background false st.

(** [add_draw_item(draw_function)]; every shape builder ([circle],
    [rectangle], [line], ...) ends in this call. *)
Definition add_draw_item (draw_function : Item) (st : Data) : Data :=
  let st1 :=
    if draw_background st
    then with_background_list (background_list st ++ [draw_function]) st
    else st in
  with_draw_list (draw_list st1 ++ [draw_function]) st1.

(** [draw()] *)
Definition draw (st : Data) : Data :=
  let ls := Snapshot (length (snapshots st)) in
  let st1 := with_snapshots (snapshots st ++ [draw_list st]) st in
  let st2 :=
    with_queue
      (TimedQueue.push {| refresh := false; captured := ls |}
                       (render_commands st1)) st1 in
  clear_list PendingList st2.

(** [redraw()]: [ls = data.draw_list] binds the pending list itself. *)
Definition redraw (st : Data) : Data :=
  let ls := PendingList in
  let st1 :=
    with_queue
      (TimedQueue.push {| refresh := true; captured := ls |}
                       (render_commands st)) st in
  clear_list PendingList st1.

(** [done()], up to the [join]. *)
Definition done_ (st : Data) : Data :=
  with_flags (setup_complete st) true (running st) st.

(** ** do_draw *)

(** How a call ends. *)
Inductive Completion : Type :=
| Returned
| Raised (msg : string).

(** What a piece of render-thread code did: its effects in order, how it
    ended, and the state it left. *)
Record Outcome : Type := {
  effects : list Effect;
  completion : Completion;
  final : Data
}.

(** [for i in data.background_list: i()]: no handler, so the first item that
    raises ends the loop and the exception leaves [do_draw]. *)
Fixpoint replay (items : list Item) : list Effect * Completion :=
  match items with
  | [] => ([], Returned)
  | i :: rest =>
      match item_raises i with
      | Some e => ([Call i], Raised e)
      | None => let '(tr, c) := replay rest in (Call i :: tr, c)
      end
  end.

Definition render_error (e : string) : string :=
  ("ERROR::RENDER_ERROR: Could not execute pygame render command!"
     ++ String "010"%char "    " ++ e)%string.

(** [for i in draw_list: try: i() except Exception as e: print(...)] *)
Fixpoint replay_guarded (items : list Item) : list Effect :=
  match items with
  | [] => []
  | i :: rest =>
      match item_raises i with
      | Some e => Call i :: Print (render_error e) :: replay_guarded rest
      | None => Call i :: replay_guarded rest
      end
  end.

(** [do_draw(refresh, draw_list)] *)
Definition do_draw (refresh : bool) (ls : ListRef) (st : Data) : Outcome :=
  let '(tr1, c1) :=
    if refresh
    then let '(tr, c) := replay (background_list st) in
         (Fill (background st) :: tr, c)
    else ([], Returned) in
  match c1 with
  | Raised e => {| effects := tr1; completion := Raised e; final := st |}
  | Returned =>
      {| effects := tr1 ++ replay_guarded (fetch st ls) ++ [Flip];
         completion := Returned;
         final := clear_list ls st |}
  end.

(** ** pygame_loop *)

Inductive EventType : Type :=
| QUIT
| OTHER (code : nat).

Definition is_quit (e : EventType) : bool :=
  match e with QUIT => true | OTHER _ => false end.

(** The setup block of [pygame_loop], under the lock. *)
Definition setup (background_ : string) (st : Data) : Outcome :=
  {| effects := [Fill background_; Flip];
     completion := Returned;
     final :=
       {| ms := ms st; color := color st; background := background_;
          draw_list := draw_list st; background_list := background_list st;
          draw_background := draw_background st;
          setup_complete := true;
          render_commands := render_commands st;
          done := done st; running := running st;
          snapshots := snapshots st |} |}.

(** The rendering block of one loop iteration, under the lock:
    [el = data.render_commands.pop()], and if [el] is truthy, [comm, args = el]
    followed by the call of [comm] on the unpacked [args].  A queue element
    is a two-element list, hence truthy. *)
Definition render_section (now1 now2 : float) (st : Data) : Outcome :=
  let '(el, q) :=
    @TimedQueue.pop Command (Command_PyEq st) now1 now2 (render_commands st) in
  let st1 := with_queue q st in
  match el with
  | Some c => do_draw (refresh c) (captured c) st1
  | None => {| effects := []; completion := Returned; final := st1 |}
  end.

(** The body run for one polled event, under the lock:
    [if event.type == pygame.QUIT and data.done: data.running = False]. *)
Definition check_event (e : EventType) (st : Data) : Data :=
  if is_quit e && done st
  then with_flags (setup_complete st) (done st) false st
  else st.

(** Calls the caller thread can make while the window is up. *)
Inductive Api : Type :=
| CallSetSpeed (speed : Z)
| CallSetColor (c : string)
| CallShape (i : Item)
| CallBackgroundBegin
| CallBackgroundEnd
| CallDraw
| CallRedraw
| CallDone.

Definition api_step (a : Api) (st : Data) : Data :=
  match a with
  | CallSetSpeed speed => set_speed speed st
  | CallSetColor c => set_color c st
  | CallShape i => add_draw_item i st
  | CallBackgroundBegin => background_begin st
  | CallBackgroundEnd => background_end st
  | CallDraw => draw st
  | CallRedraw => redraw st
  | CallDone => done_ st
  end.

Definition api_steps (calls : list Api) (st : Data) : Data :=
  fold_left (fun s a => api_step a s) calls st.

(** One turn of [while data.running]: what the caller thread gets to do
    before the rendering block takes the lock, the two clock readings of the
    [pop], and the events [pygame.event.get()] returns, each with the caller
    calls that slip in before its check takes the lock. *)
Record Iteration : Type := {
  before_render : list Api;
  clock : float * float;
  polled : list (list Api * EventType)
}.

(** [for event in pygame.event.get(): with data.thread_lock: ...] *)
Fixpoint poll_events (evs : list (list Api * EventType)) (st : Data) : Data :=
  match evs with
  | [] => st
  | (calls, e) :: rest => poll_events rest (check_event e (api_steps calls st))
  end.

(** How the window loop stands when the script runs out. *)
Inductive LoopEnd : Type :=
| Exited (st : Data)                  (* [data.running] was read as false *)
| Crashed (msg : string) (st : Data)  (* an exception left the thread *)
| Pending (st : Data).                (* still looping *)

(** [while data.running: ...] driven by a script of iterations. *)
Fixpoint window_loop (script : list Iteration) (st : Data)
  : list Effect * LoopEnd :=
  if running st then
    match script with
    | [] => ([], Pending st)
    | it :: rest =>
        let r := render_section (fst (clock it)) (snd (clock it))
                                (api_steps (before_render it) st) in
        match completion r with
        | Raised e => (effects r, Crashed e (final r))
        | Returned =>
            let '(tr, fin) :=
              window_loop rest (poll_events (polled it) (final r)) in
            (effects r ++ tr, fin)
        end
    end
  else ([], Exited st).

(** [pygame_loop(title, dimensions, background)] *)
Definition pygame_loop (background_ : string) (script : list Iteration)
    (st : Data) : list Effect * LoopEnd :=
  let s := setup background_ st in
  let '(tr, fin) := window_loop script (final s) in
  (effects s ++ tr
     ++ match fin with Exited _ => [PygameQuit] | _ => [] end,
   fin).

(** [start(title, dimensions, background)]: the state the caller sees when
    [start] returns, the render thread having finished its setup block. *)
Definition start (background_ : string) (st : Data) : Data :=
  let st1 := with_flags (setup_complete st) (done st) true st in
  let st2 := final (setup background_ st1) in
  with_flags false (done st2) (running st2) st2.

(** ** Reading traces and scripts *)

(** The items called in a trace, in order. *)
Definition calls (tr : list Effect) : list Item :=
  omap (fun e => match e with Call i => Some i | _ => None end) tr.

(** The error reports printed in a trace, in order. *)
Definition prints (tr : list Effect) : list string :=
  omap (fun e => match e with Print m => Some m | _ => None end) tr.

Definition is_flip (e : Effect) : bool :=
  match e with Flip => true | _ => false end.

(** The messages of the items of a list that raise, in order. *)
Definition failures (items : list Item) : list string :=
  omap item_raises items.

Definition is_done_call (a : Api) : bool :=
  match a with CallDone => true | _ => false end.

(** Does the caller call [done()] anywhere in the script? *)
Definition calls_done (script : list Iteration) : bool :=
  existsb (fun it =>
             existsb is_done_call (before_render it)
             || existsb (fun ce => existsb is_done_call (fst ce)) (polled it))
          script.

(** Does the script deliver a window-close event? *)
Definition delivers_quit (script : list Iteration) : bool :=
  existsb (fun it => existsb (fun ce => is_quit (snd ce)) (polled it)) script.


(** The level [set_speed] works with, in the words of its documentation:
    the speed brought into the range 1..10. *)
Definition clamp_speed (speed : Z) : Z := Z.max 1 (Z.min 10 speed).

(** ** Runs of operations on which the gate stays closed *)

(** The clock readings of the polls among [ops], in order. *)
Fixpoint readings {A : Type} (ops : list (TimedQueue.op A))
  : list (float * float) :=
  match ops with
  | [] => []
  | TimedQueue.Pop now1 now2 :: rest => (now1, now2) :: readings rest
  | _ :: rest => readings rest
  end.

(** Every poll among [ops], run from [q], finds the gate closed. *)
Fixpoint polls_closed {A : Type} `{PyEq A}
    (ops : list (TimedQueue.op A)) (q : TimedQueue.t_ A) : Prop :=
  match ops with
  | [] => True
  | o :: rest =>
      match o with
      | TimedQueue.Pop _ now2 => TimedQueue.gate now2 q = false
      | _ => True
      end
      /\ polls_closed rest (snd (TimedQueue.run_op o q))
  end.

(** What [time_since] comes to over polls with the given readings: starting
    from [acc], with [t0] the reading stored last, each poll adds its second
    reading minus the first reading of the poll before it, in binary64 and
    in this order. *)
Fixpoint summed (acc t0 : float) (clock : list (float * float)) : float :=
  match clock with
  | [] => acc
  | (now1, now2) :: rest => summed (acc + (now2 - t0))%float now1 rest
  end.

(** The cooldown in force after [ops], [c] being the one before. *)
Fixpoint last_cooldown {A : Type} (c : float) (ops : list (TimedQueue.op A))
  : float :=
  match ops with
  | [] => c
  | TimedQueue.SetCooldown cool :: rest => last_cooldown (cool / 1000)%float rest
  | _ :: rest => last_cooldown c rest
  end.

(** ** Steps of the two threads *)

(** What can happen to the shared state, one lock-protected block at a
    time: a call of the caller thread, the rendering block of the window
    loop, the check of one polled event. *)
Inductive Action : Type :=
| Caller (a : Api)
| Render (now1 now2 : float)
| Check (e : EventType).

Definition act (a : Action) (st : Data) : Data :=
  match a with
  | Caller c => api_step c st
  | Render now1 now2 => final (render_section now1 now2 st)
  | Check e => check_event e st
  end.

Definition acts (l : list Action) (st : Data) : Data :=
  fold_left (fun s a => act a s) l st.

(** The copies the queued commands hold, front of the queue first. *)
Definition queued_snapshots (st : Data) : list nat :=
  omap (fun c => match captured c with
                 | Snapshot n => Some n
                 | PendingList => None
                 end)
       (TimedQueue.elements (render_commands st)).

(** No two queued commands hold the same copy, and every copy a queued
    command holds exists. *)
Definition snapshots_wf (st : Data) : Prop :=
  NoDup (queued_snapshots st)
  /\ Forall (fun n => (n < length (snapshots st))%nat) (queued_snapshots st).

Definition is_flush (a : Api) : bool :=
  match a with CallDraw | CallRedraw => true | _ => false end.

(** How many commands are queued. *)
Definition queue_length (st : Data) : nat :=
  length (TimedQueue.elements (render_commands st)).

(** How many [draw()] / [redraw()] calls, and how many rendering blocks, a
    list of steps holds. *)
Fixpoint flushes (l : list Action) : nat :=
  match l with
  | [] => 0
  | Caller c :: rest => (if is_flush c then 1 else 0) + flushes rest
  | _ :: rest => flushes rest
  end.

Fixpoint renders (l : list Action) : nat :=
  match l with
  | [] => 0
  | Render _ _ :: rest => 1 + renders rest
  | _ :: rest => renders rest
  end.

(** ** rectangle *)

(** [RotationPoint], and the explicit point the last branch of [rectangle]
    unpacks. *)
Inductive RotationPoint : Type :=
| BOTTOM_LEFT
| BOTTOM_RIGHT
| TOP_RIGHT
| TOP_LEFT
| CENTER
| POINT (x_pt y_pt : Z).

Definition nRenderRatio : Z := 8.

(** The [if]/[elif] chain of [rectangle]; [//] is floor division and
    [-width // 2] is [(-width) // 2]. *)
Definition rotation_offset_center (x_pos y_pos width height : Z)
    (rotation_point : RotationPoint) : Z * Z :=
  match rotation_point with
  | CENTER => (0, 0)
  | BOTTOM_LEFT => ((- width) / 2, height / 2)
  | BOTTOM_RIGHT => (width / 2, height / 2)
  | TOP_RIGHT => (width / 2, (- height) / 2)
  | TOP_LEFT => ((- width) / 2, (- height) / 2)
  | POINT x_pt y_pt => (x_pt - x_pos - width / 2, y_pt - y_pos - height / 2)
  end%Z.

(** What [rectangle] computes around its pygame calls. *)
Record RectanglePlan : Type := {
  scratch_size : Z * Z;          (* of [pygame.Surface(...)] *)
  drawn_rect : Z * Z * Z * Z;    (* x, y, width, height of [pygame.draw.rect] *)
  drawn_stroke : Z;
  scaled_size : Z * Z;           (* asked of [smoothscale] *)
  blit_at : Z * Z                (* where [data.screen.blit] puts the surface *)
}.

(** [rectangle(x_pos, y_pos, width, height, stroke, rotation_angle,
    rotation_point)] on integers.  [rotated] is the size of the surface
    [pygame.transform.rotate] returns, which is pygame's business. *)
Definition rectangle (x_pos y_pos width height stroke : Z)
    (rotation_point : RotationPoint) (rotated : Z * Z) : RectanglePlan :=
  (let rotation_offset_center :=
     rotation_offset_center x_pos y_pos width height rotation_point in
   let sw := width + Z.abs (fst rotation_offset_center) * 2 in
   let sh := height + Z.abs (snd rotation_offset_center) * 2 in
   let surfcenterx := sw / 2 in
   let surfcentery := sh / 2 in
   let rw2 := width / 2 in
   let rh2 := height / 2 in
   let s_width := fst rotated / nRenderRatio in
   let s_height := snd rotated / nRenderRatio in
   let incfromrotw := (s_width - sw) / 2 in
   let incfromroth := (s_height - sh) / 2 in
   {| scratch_size := (sw * nRenderRatio, sh * nRenderRatio);
      drawn_rect :=
        ((surfcenterx - rw2 - fst rotation_offset_center) * nRenderRatio,
         (surfcentery - rh2 - snd rotation_offset_center) * nRenderRatio,
         width * nRenderRatio,
         height * nRenderRatio);
      drawn_stroke := stroke * nRenderRatio;
      scaled_size := (s_width, s_height);
      blit_at :=
        (x_pos - surfcenterx + fst rotation_offset_center + rw2 - incfromrotw,
         y_pos - surfcentery + snd rotation_offset_center + rh2 - incfromroth)
   |})%Z.

(** How often a trace flips the buffer. *)
Definition flip_count (tr : list Effect) : nat :=
  length (List.filter is_flip tr).

(** The point of the unrotated rectangle a rotation point stands for, in
    window coordinates (y grows downwards). *)
Definition pivot_of (x_pos y_pos width height : Z)
    (rotation_point : RotationPoint) : Z * Z :=
  match rotation_point with
  | BOTTOM_LEFT => (x_pos, y_pos + height)
  | BOTTOM_RIGHT => (x_pos + width, y_pos + height)
  | TOP_RIGHT => (x_pos + width, y_pos)
  | TOP_LEFT => (x_pos, y_pos)
  | CENTER => (x_pos + width / 2, y_pos + height / 2)
  | POINT x_pt y_pt => (x_pt, y_pt)
  end%Z.

(** ** polygon_begin, add_poly_point, polygon_end *)

(** The two fields of [Data] the polygon functions work on. *)
Record PolygonState : Type := {
  poly_width : Z;
  poly_points : list (Z * Z)
}.

(** The arguments [polygon_end] binds into
    [partial(pygame.draw.polygon, data.screen, ...)]. *)
Record PolygonCall : Type := {
  polygon_color : string;
  polygon_points : list (Z * Z);
  polygon_width : Z
}.

(** [polygon_begin(stroke)] *)
Definition polygon_begin (stroke : Z) (p : PolygonState) : PolygonState :=
  {| poly_width := stroke; poly_points := [] |}.

(** [add_poly_point(x_pos, y_pos)] *)
Definition add_poly_point (x_pos y_pos : Z) (p : PolygonState) : PolygonState :=
  {| poly_width := poly_width p;
     poly_points := poly_points p ++ [(x_pos, y_pos)] |}.

(** [polygon_end()]: the call it hands to [add_draw_item]; the polygon
    state itself stays as it is. *)
Definition polygon_end (st : Data) (p : PolygonState) : PolygonCall :=
  {| polygon_color := color st;
     polygon_points := poly_points p;
     polygon_width := poly_width p |}.

Definition add_poly_points (pts : list (Z * Z)) (p : PolygonState)
  : PolygonState :=
  fold_left (fun s pt => add_poly_point (fst pt) (snd pt) s) pts p.

(** * Properties of the rate-limited queue *)

(** Closed statements about concrete runs are settled by running the
    model. *)
Ltac by_evaluation :=
  cbv zeta;
  repeat match goal with |- _ /\ _ => split end;
  first [ vm_compute; reflexivity | vm_compute; discriminate ].

(** ** Binary64 *)

Lemma Prim2SF_zero : Prim2SF 0 = S754_zero false.
Proof. reflexivity. Qed.

Lemma SFcompare_zero_sign (c : spec_float) (s s' : bool) :
  SFcompare c (S754_zero s) = SFcompare c (S754_zero s').
Proof. destruct c; reflexivity. Qed.

(** Adding a difference from zero to zero does not change what it compares
    to: [0.0 + (x - 0.0)] is [x], but for a zero's sign. *)
Lemma ltb_restart (c x : float) : (c <? 0 + (x - 0))%float = (c <? x)%float.
Proof.
  rewrite !ltb_spec, add_spec, sub_spec, Prim2SF_zero.
  unfold SFltb.
  destruct (Prim2SF x) as [s | s | | s m e]; simpl; try reflexivity.
  unfold SF64sub, SF64add; simpl.
  destruct s; simpl;
    now rewrite (SFcompare_zero_sign _ false true) || reflexivity.
Qed.

Lemma restart_exact (x : float) :
  (0 <? x)%float = true -> (0 + (x - 0))%float = x.
Proof.
  intros Hpos. apply Prim2SF_inj.
  rewrite ltb_spec, Prim2SF_zero in Hpos.
  rewrite add_spec, sub_spec, Prim2SF_zero.
  destruct (Prim2SF x) as [s | s | | s m e]; try discriminate; reflexivity.
Qed.



Lemma last_cons_default {B : Type} (x d : B) (l : list B) :
  List.last (x :: l) d = List.last l x.
Proof.
  revert x d. induction l as [|y l IH]; intros x d; [reflexivity|].
  change (List.last (x :: y :: l) d) with (List.last (y :: l) d).
  now rewrite !(IH y).
Qed.

Section QueueFacts.
Context {A : Type} `{PyEq A}.
Import TimedQueue.

Implicit Types (q : t_ A) (el : A) (ops : list (op A)).

(** Removing [l[0]] from [l] leaves the tail: the comparison with itself
    succeeds at index 0. *)
Lemma list_remove_head (x : A) (l : list A) : list_remove x (x :: l) = l.
Proof. simpl. now rewrite py_eq_refl. Qed.

Lemma _pop_head_tail q :
  _pop q = (head (elements q),
            {| elements := tail (elements q); cooldown := cooldown q;
               time_since := time_since q; t := t q |}).
Proof.
  unfold _pop. destruct q as [els c ts t0]; simpl.
  destruct els as [|el rest]; simpl; [reflexivity|].
  now rewrite py_eq_refl.
Qed.

(** The gate is open: the timer restarts and the head, if any, leaves. *)
Lemma pop_open q (now1 now2 : float) :
  gate now2 q = true ->
  pop now1 now2 q =
    (head (elements q),
     {| elements := tail (elements q); cooldown := cooldown q;
        time_since := 0; t := now1 |}).
Proof.
  intros Hopen. unfold pop, gate, accumulated in *. simpl.
  rewrite Hopen. now rewrite _pop_head_tail.
Qed.

(** The gate is closed: nothing leaves and the timer keeps its sum. *)
Lemma pop_closed q (now1 now2 : float) :
  gate now2 q = false ->
  pop now1 now2 q =
    (None,
     {| elements := elements q; cooldown := cooldown q;
        time_since := accumulated now2 q; t := now1 |}).
Proof.
  intros Hclosed. unfold pop, gate, accumulated in *. simpl.
  now rewrite Hclosed.
Qed.

Lemma gate_cases q (now2 : float) :
  {gate now2 q = true} + {gate now2 q = false}.
Proof. destruct (gate now2 q); [now left | now right]. Qed.

Lemma pop_conserves q (now1 now2 : float) :
  match fst (pop now1 now2 q) with
  | Some el => el :: elements (snd (pop now1 now2 q))
  | None => elements (snd (pop now1 now2 q))
  end = elements q.
Proof.
  destruct (gate_cases q now2) as [Hopen | Hclosed].
  - rewrite (pop_open _ _ _ Hopen). simpl.
    now destruct (elements q).
  - now rewrite (pop_closed _ _ _ Hclosed).
Qed.

(** Whatever the clock does, what has been handed out followed by what is
    still queued is what was queued followed by what was pushed. *)
Lemma run_conserves ops : forall q,
  fst (run ops q) ++ elements (snd (run ops q)) = elements q ++ pushed ops.
Proof.
  induction ops as [|o rest IH]; intros q; simpl.
  - now rewrite app_nil_r.
  - destruct o as [el | now1 now2 | cool]; simpl.
    + specialize (IH (push el q)).
      destruct (run rest (push el q)) as [rs q2]; simpl in *.
      rewrite IH. now rewrite <- app_assoc.
    + pose proof (pop_conserves q now1 now2) as Hc.
      destruct (pop now1 now2 q) as [r q1]; simpl in Hc.
      specialize (IH q1).
      destruct (run rest q1) as [rs q2]; simpl in *.
      destruct r as [el|]; simpl; rewrite IH; now rewrite <- Hc.
    + specialize (IH (set_cooldown cool q)).
      now destruct (run rest (set_cooldown cool q)) as [rs q2].
Qed.

Lemma run_pushes (l : list A) : forall q,
  run (map Push l) q =
    ([], {| elements := elements q ++ l; cooldown := cooldown q;
            time_since := time_since q; t := t q |}).
Proof.
  induction l as [|x l IH]; intros [els c ts t0]; simpl.
  - now rewrite app_nil_r.
  - rewrite IH. unfold push; simpl. now rewrite <- app_assoc.
Qed.

(** Polls hand out nothing but what is queued, front first. *)
Lemma run_polls_open (clock : list (float * float)) : forall q,
  gate_open_throughout clock q ->
  fst (run (polls clock) q) = take (length clock) (elements q)
  /\ elements (snd (run (polls clock) q)) = drop (length clock) (elements q).
Proof.
  induction clock as [|[now1 now2] rest IH]; intros q Hopen; simpl.
  - split; [reflexivity | now rewrite drop_0].
  - destruct Hopen as [Hgate Hrest].
    specialize (IH _ Hrest). revert IH.
    rewrite (pop_open q now1 now2 Hgate). simpl.
    destruct (run (polls rest) _) as [rs q2]. simpl.
    intros [IH1 IH2].
    destruct (elements q) as [|el els]; simpl in *.
    + rewrite take_nil in IH1. rewrite drop_nil in IH2. now subst.
    + now subst.
Qed.

(** ** The timer over a run that leaves the gate closed *)

Lemma summed_snoc (clock : list (float * float)) :
  forall (acc t0 now1 now2 : float),
  summed acc t0 (clock ++ [(now1, now2)])
  = (summed acc t0 clock + (now2 - List.last (map fst clock) t0))%float.
Proof.
  induction clock as [|[a1 a2] rest IH]; intros acc t0 now1 now2.
  - reflexivity.
  - change (summed acc t0 (((a1, a2) :: rest) ++ [(now1, now2)]))
      with (summed (acc + (a2 - t0))%float a1 (rest ++ [(now1, now2)])).
    rewrite IH.
    change (map fst ((a1, a2) :: rest)) with (a1 :: map fst rest).
    now rewrite last_cons_default.
Qed.

(** While no poll opens the gate nothing is handed out, pushes queue up,
    the cooldown is the one set last, and the timer holds the sum of the
    differences between each poll's second reading and the first reading of
    the poll before it. *)
Lemma run_closed ops : forall q,
  polls_closed ops q ->
  fst (run ops q) = []
  /\ elements (snd (run ops q)) = elements q ++ pushed ops
  /\ cooldown (snd (run ops q)) = last_cooldown (cooldown q) ops
  /\ time_since (snd (run ops q)) = summed (time_since q) (t q) (readings ops)
  /\ t (snd (run ops q)) = List.last (map fst (readings ops)) (t q).
Proof.
  induction ops as [|o rest IH]; intros q Hclosed.
  - simpl. now rewrite app_nil_r.
  - destruct Hclosed as [Hgate Hrest]. specialize (IH _ Hrest).
    destruct o as [el | now1 now2 | cool]; simpl in *.
    + destruct (run rest (push el q)) as [rs q2]. simpl in *.
      destruct IH as (H1 & H2 & H3 & H4 & H5).
      rewrite H2, <- app_assoc. now repeat split.
    + revert IH. rewrite (pop_closed q now1 now2 Hgate). simpl.
      destruct (run rest _) as [rs q2]. simpl.
      intros (H1 & H2 & H3 & H4 & H5). repeat split; try assumption.
      change (t q2 = List.last (now1 :: map fst (readings rest)) (t q)).
      now rewrite last_cons_default.
    + destruct (run rest (set_cooldown cool q)) as [rs q2]. simpl in *.
      exact IH.
Qed.

(** What the next poll adds up to after such a run. *)
Lemma accumulated_after_closed ops q (now1 now2 : float) :
  polls_closed ops q ->
  accumulated now2 (snd (run ops q))
  = summed (time_since q) (t q) (readings ops ++ [(now1, now2)]).
Proof.
  intros Hclosed.
  destruct (run_closed ops q Hclosed) as (_ & _ & _ & H4 & H5).
  unfold accumulated. now rewrite summed_snoc, H4, H5.
Qed.

(** C1 (as amended).  The timer restarts at zero when a queue is built and
    whenever a poll finds the gate open, and the poll's first clock reading
    is kept ([0.0] for a new queue).  From there on, over any pushes,
    cooldown changes and polls that find the gate closed, the accumulated
    time a poll works with is the binary64 sum, poll after poll, of the
    poll's second reading minus the first reading of the poll before it.
    The poll hands out an element exactly when that sum is greater than the
    cooldown and the element is the head of the queue; it then removes the
    head and restarts the timer (also when the queue is empty).  Otherwise
    it returns nothing, leaves the elements as they are and keeps the sum.
    Either way it stores its first reading. *)
Theorem pop_returns_head_iff_cooldown_exceeded :
  (forall ms : float,
      time_since (@init A ms) = 0%float /\ t (@init A ms) = 0%float)
  /\ (forall q (a1 a2 : float),
        gate a2 q = true ->
        time_since (snd (pop a1 a2 q)) = 0%float
        /\ t (snd (pop a1 a2 q)) = a1)
  /\ (forall q0 ops (now1 now2 : float),
        time_since q0 = 0%float ->
        polls_closed ops q0 ->
        let q := snd (run ops q0) in
        let acc := summed 0 (t q0) (readings ops ++ [(now1, now2)]) in
        let r := fst (pop now1 now2 q) in
        let q' := snd (pop now1 now2 q) in
        (forall el, r = Some el <->
                    float_gt acc (cooldown q) = true
                    /\ head (elements q) = Some el)
        /\ (float_gt acc (cooldown q) = true ->
            r = head (elements q) /\ elements q' = tail (elements q)
            /\ time_since q' = 0%float /\ t q' = now1)
        /\ (float_gt acc (cooldown q) = false ->
            r = None /\ elements q' = elements q
            /\ time_since q' = acc /\ t q' = now1)).
Proof.
  split; [intros ms; split; reflexivity|].
  split; [intros q a1 a2 Hopen; now rewrite (pop_open _ _ _ Hopen)|].
  intros q0 ops now1 now2 Hzero Hclosed q acc r q'. subst r q'.
  assert (Hacc : accumulated now2 q = acc).
  { subst q acc. rewrite (accumulated_after_closed ops q0 now1 now2 Hclosed).
    now rewrite Hzero. }
  assert (Hgate : gate now2 q = float_gt acc (cooldown q))
    by (unfold gate; now rewrite Hacc).
  rewrite <- Hgate.
  split; [|split].
  - intros el. destruct (gate_cases q now2) as [Hopen | Hshut].
    + rewrite (pop_open _ _ _ Hopen), Hopen. simpl. tauto.
    + rewrite (pop_closed _ _ _ Hshut), Hshut. simpl.
      split; [discriminate | intros [Hf _]; discriminate].
  - intros Hopen. now rewrite (pop_open _ _ _ Hopen).
  - intros Hshut. rewrite (pop_closed _ _ _ Hshut). simpl.
    now rewrite Hacc.
Qed.

(** C4 (as amended).  A poll that returns nothing stores its first clock
    reading and leaves the elements and the cooldown alone.  It does so in
    one of two ways.  Either the gate is closed: then the accumulated time
    is not reset, it is the old value plus, in binary64, the poll's second
    reading minus the reading stored before, and the next poll that finds
    the gate closed adds its own second reading minus this poll's first.
    Or the gate is open and the queue is empty: then the accumulated time is
    reset to zero.  A poll that returns nothing on a non-empty queue is
    always of the first kind. *)
Theorem unsuccessful_poll_accumulates q (now1 now2 : float) :
  fst (pop now1 now2 q) = None ->
  let q' := snd (pop now1 now2 q) in
  t q' = now1 /\ elements q' = elements q /\ cooldown q' = cooldown q
  /\ (gate now2 q = false ->
      time_since q' = (time_since q + (now2 - t q))%float
      /\ forall m1 m2 : float,
           gate m2 q' = false ->
           time_since (snd (pop m1 m2 q'))
           = ((time_since q + (now2 - t q)) + (m2 - now1))%float)
  /\ (elements q <> [] -> gate now2 q = false)
  /\ (gate now2 q = true -> elements q = [] /\ time_since q' = 0%float).
Proof.
  intros Hnone q'. subst q'.
  destruct (gate_cases q now2) as [Hopen | Hshut].
  - rewrite (pop_open _ _ _ Hopen) in Hnone |- *. simpl in *.
    assert (Hempty : elements q = []) by now destruct (elements q).
    rewrite Hempty. repeat split; try congruence.
  - rewrite (pop_closed _ _ _ Hshut). simpl.
    repeat split; try congruence.
    intros m1 m2 Hshut2. now rewrite (pop_closed _ _ _ Hshut2).
Qed.

(** C10 (as amended).  A new queue has [t = 0] and [time_since = 0] and a
    cooldown of [ms / 1000.0], so on the first poll the accumulated time is
    [0.0 + (now - 0.0)], the clock reading itself.  The first poll passes
    the gate exactly when that reading is greater than the cooldown, and
    then returns the head of what has been pushed. *)
Theorem first_pop_passes_gate (ms now1 now2 : float) (el : A) (rest : list A) :
  let q := snd (run (map Push (el :: rest)) (init ms)) in
  cooldown q = (ms / 1000)%float
  /\ accumulated now2 q = (0 + (now2 - 0))%float
  /\ ((0 <? now2)%float = true -> accumulated now2 q = now2)
  /\ gate now2 q = float_gt now2 (ms / 1000)
  /\ fst (pop now1 now2 q)
     = (if float_gt now2 (ms / 1000) then Some el else None)
  /\ elements (snd (pop now1 now2 q))
     = (if float_gt now2 (ms / 1000) then rest else el :: rest)
  /\ t (snd (pop now1 now2 q)) = now1.
Proof.
  intros q. subst q. rewrite run_pushes. simpl.
  set (q := {| elements := el :: rest; cooldown := (ms / 1000)%float;
               time_since := 0%float; t := 0%float |}).
  assert (Hgate : gate now2 q = float_gt now2 (ms / 1000)).
  { unfold gate, accumulated, float_gt. simpl. apply ltb_restart. }
  split; [reflexivity|]. split; [reflexivity|].
  split; [intros Hpos; unfold accumulated; simpl; now apply restart_exact|].
  split; [exact Hgate|].
  rewrite <- Hgate.
  destruct (gate_cases q now2) as [Hopen | Hshut].
  - rewrite (pop_open _ _ _ Hopen), Hopen. now repeat split.
  - rewrite (pop_closed _ _ _ Hshut), Hshut. now repeat split.
Qed.

End QueueFacts.

(** ** The queue on concrete inputs *)

(** Counterexample to C1 as stated.  With a cooldown of 1000 ms an element
    is pushed onto a new queue and the clock reads 1 s at the first poll:
    the accumulated time (1 s) is at least the cooldown (1 s), the queue has
    a head, and the poll returns nothing and leaves the element where it
    is. *)
Lemma pop_at_exact_cooldown_returns_nothing :
  let q := TimedQueue.push 7%nat (TimedQueue.init 1000) in
  (TimedQueue.cooldown q <=? TimedQueue.accumulated 1 q)%float = true
  /\ head (TimedQueue.elements q) = Some 7%nat
  /\ fst (TimedQueue.pop 1 1 q) = None
  /\ TimedQueue.elements (snd (TimedQueue.pop 1 1 q)) = [7%nat].
Proof. by_evaluation. Qed.

(** C1 at work: two elements are pushed onto a new queue with a cooldown of
    1 s.  A poll at 2 s opens the gate and takes the first.  A poll at 2.5 s
    finds the gate closed.  At the poll at 4 s the sum is
    [(0 + (2.5 - 2)) + (4 - 2.5)], which is 2 s: the second element
    leaves. *)
Lemma pop_returns_head_iff_cooldown_exceeded_witness :
  let q0 := snd (TimedQueue.pop 2 2
                   (snd (TimedQueue.run
                           [TimedQueue.Push 7%nat; TimedQueue.Push 8%nat]
                           (TimedQueue.init 1000)))) in
  let q := snd (TimedQueue.run [TimedQueue.Pop 2.5 2.5] q0) in
  fst (TimedQueue.pop 4 4 q) = Some 8%nat
  /\ TimedQueue.elements (snd (TimedQueue.pop 4 4 q)) = []
  /\ TimedQueue.time_since (snd (TimedQueue.pop 4 4 q)) = 0%float.
Proof.
  intros q0 q.
  destruct (@pop_returns_head_iff_cooldown_exceeded nat _) as (_ & _ & Hrule).
  destruct (Hrule q0 [TimedQueue.Pop 2.5 2.5] 4 4)%float
    as (_ & Hopen & _);
    [reflexivity | split; [reflexivity | exact I] |].
  destruct (Hopen eq_refl) as (Hr & Hels & Hts & _).
  repeat split; assumption.
Defined.

(** One tick later than the cooldown the poll does return the head. *)
Example pop_past_cooldown_returns_head :
  let q := TimedQueue.push 7%nat (TimedQueue.init 1000) in
  fst (TimedQueue.pop 1.5 1.5 q) = Some 7%nat
  /\ TimedQueue.elements (snd (TimedQueue.pop 1.5 1.5 q)) = [].
Proof. by_evaluation. Qed.

(** The two readings of a poll count.  The gate opens at 10 s; three polls
    follow whose readings are a quarter of a second apart.  At the third,
    one second after the gate opened, the sum is
    [(0.5 + 0.5) + 0.5] and the head leaves, although one second is not more
    than the cooldown of one second. *)
Example double_reading_opens_early :
  let q := TimedQueue.push 8%nat
             (TimedQueue.push 7%nat (TimedQueue.init 1000)) in
  let q0 := snd (TimedQueue.pop 10 10 q) in
  let q1 := snd (TimedQueue.pop 10.25 10.5 q0) in
  let q2 := snd (TimedQueue.pop 10.5 10.75 q1) in
  fst (TimedQueue.pop 10 10 q) = Some 7%nat
  /\ fst (TimedQueue.pop 10.25 10.5 q0) = None
  /\ fst (TimedQueue.pop 10.5 10.75 q1) = None
  /\ TimedQueue.accumulated 11 q2 = 1.5%float
  /\ fst (TimedQueue.pop 10.75 11 q2) = Some 8%nat.
Proof. by_evaluation. Qed.

(** Rounding counts.  With a cooldown of 230 ms and polls at 0.084 s and
    0.23 s, the sum [0.084 + (0.23 - 0.084)] is the float just above 0.23,
    and the head leaves although 0.23 s is not more than 0.23 s. *)
Example rounding_opens_the_gate :
  let q := TimedQueue.push 7%nat (TimedQueue.init 230) in
  let q1 := snd (TimedQueue.pop (84 / 1000) (84 / 1000) q) in
  fst (TimedQueue.pop (84 / 1000) (84 / 1000) q) = None
  /\ (TimedQueue.cooldown q1 <? TimedQueue.accumulated (230 / 1000) q1)%float
     = true
  /\ fst (TimedQueue.pop (230 / 1000) (230 / 1000) q1) = Some 7%nat.
Proof. by_evaluation. Qed.

(** Counterexample to C4 as stated.  An empty queue with a cooldown of
    1000 ms is polled at 0.5 s and at 2 s.  Both polls return nothing.
    After the first the accumulated time is 0.5 s; the second finds the
    gate open and the queue empty, and the accumulated time is back to
    zero. *)
Lemma empty_poll_resets_accumulated_time :
  let q0 := @TimedQueue.init nat 1000 in
  let q1 := snd (TimedQueue.pop 0.5 0.5 q0) in
  let q2 := snd (TimedQueue.pop 2 2 q1) in
  fst (TimedQueue.pop 0.5 0.5 q0) = None
  /\ TimedQueue.time_since q1 = 0.5%float
  /\ fst (TimedQueue.pop 2 2 q1) = None
  /\ TimedQueue.time_since q2 = 0%float
  /\ (TimedQueue.time_since q1 <=? TimedQueue.time_since q2)%float = false.
Proof. by_evaluation. Qed.

(** C4 at work: a queue that holds one element and has a cooldown of 1 s is
    polled at 0.5 s and at 0.75 s; both polls return nothing and the
    accumulated time is [(0 + (0.5 - 0)) + (0.75 - 0.5)]. *)
Lemma unsuccessful_poll_accumulates_witness :
  let q := TimedQueue.push 7%nat (TimedQueue.init 1000) in
  let q' := snd (TimedQueue.pop 0.5 0.5 q) in
  fst (TimedQueue.pop 0.5 0.5 q) = None
  /\ TimedQueue.time_since q' = 0.5%float
  /\ TimedQueue.time_since (snd (TimedQueue.pop 0.75 0.75 q')) = 0.75%float.
Proof.
  intros q q'.
  destruct (unsuccessful_poll_accumulates q 0.5 0.5 eq_refl)
    as (_ & _ & _ & Hkeep & _).
  destruct (Hkeep eq_refl) as [Hone Htwo].
  split; [reflexivity|]. split; [exact Hone|].
  exact (Htwo 0.75 0.75 eq_refl)%float.
Defined.

(** Counterexample to C10 as stated.  The cooldown is positive and the
    first poll does not pass the gate: with 1000 ms at a clock reading of
    0.5 s, and with 2 000 000 000 000 ms at a clock reading of
    1 700 000 000 s, the seconds since the epoch late in 2023. *)
Lemma first_pop_blocked_by_cooldown :
  let q := TimedQueue.push 7%nat (TimedQueue.init 1000) in
  let q_long := TimedQueue.push 7%nat (TimedQueue.init 2000000000000) in
  (0 <? TimedQueue.cooldown q)%float = true
  /\ fst (TimedQueue.pop 0.5 0.5 q) = None
  /\ (0 <? TimedQueue.cooldown q_long)%float = true
  /\ TimedQueue.accumulated 1700000000 q_long = 1700000000%float
  /\ fst (TimedQueue.pop 1700000000 1700000000 q_long) = None.
Proof. by_evaluation. Qed.

(** C10 at work: the first poll of a queue built with the program's default
    cooldown, at a clock reading of 1 700 000 000 s. *)
Lemma first_pop_passes_gate_witness :
  fst (TimedQueue.pop 1700000000 1700000000
         (snd (TimedQueue.run (map TimedQueue.Push [7%nat; 8%nat])
                              (TimedQueue.init 1000))))
  = Some 7%nat.
Proof.
  destruct (first_pop_passes_gate 1000 1700000000 1700000000 7%nat [8%nat])
    as (_ & _ & _ & _ & Hpop & _).
  exact Hpop.
Defined.

(** * Properties of the caller-facing functions and of the render thread *)

(** ** set_speed *)

(** Counterexample to C3 as stated.  Input 0 is clamped to level 1, whose
    cooldown is 33 + 197 * 9 = 1806 ms, not 1790 ms. *)
Lemma set_speed_0_is_1806 :
  ms (set_speed 0 Data_init) = 1806%Z
  /\ ms (set_speed 0 Data_init) <> 1790%Z
  /\ TimedQueue.cooldown (render_commands (set_speed 0 Data_init))
     = (1806 / 1000)%float.
Proof. by_evaluation. Qed.

(** C3 (as amended).  For every integer input, [set_speed] clamps the level
    into 1..10 and sets the cooldown to 33 + 197 * (10 - level) ms, which the
    queue stores in seconds; input 0 yields 1806 ms, input 11 yields 33 ms
    and input 5 yields 1018 ms. *)
Theorem set_speed_cooldown (speed : Z) (st : Data) :
  let level := clamp_speed speed in
  let st' := set_speed speed st in
  (1 <= level <= 10)%Z
  /\ ms st' = (33 + 197 * (10 - level))%Z
  /\ TimedQueue.cooldown (render_commands st')
     = (float_of_int (ms st') / 1000)%float
  /\ ms (set_speed 0 st) = 1806%Z
  /\ ms (set_speed 11 st) = 33%Z
  /\ ms (set_speed 5 st) = 1018%Z.
Proof.
  intros level st'. subst level st'. unfold clamp_speed, set_speed. simpl.
  repeat split; try lia.
  destruct (speed <? 1)%Z eqn:H1; [apply Z.ltb_lt in H1; lia|].
  apply Z.ltb_ge in H1.
  destruct (10 <? speed)%Z eqn:H10;
    [apply Z.ltb_lt in H10 | apply Z.ltb_ge in H10]; lia.
Qed.





(** ** do_draw *)

Lemma calls_app (tr1 tr2 : list Effect) :
  calls (tr1 ++ tr2) = calls tr1 ++ calls tr2.
Proof. apply omap_app. Qed.

Lemma prints_app (tr1 tr2 : list Effect) :
  prints (tr1 ++ tr2) = prints tr1 ++ prints tr2.
Proof. apply omap_app. Qed.

Lemma calls_map_Call (items : list Item) : calls (map Call items) = items.
Proof. induction items as [|i items IH]; simpl; [|rewrite IH]; reflexivity. Qed.

(** The guarded loop calls every item, in list order, whatever raises. *)
Lemma calls_replay_guarded (items : list Item) :
  calls (replay_guarded items) = items.
Proof.
  induction items as [|i items IH]; simpl; [reflexivity|].
  destruct (item_raises i); simpl; now rewrite IH.
Qed.

(** ... and reports every failure, in list order. *)
Lemma prints_replay_guarded (items : list Item) :
  prints (replay_guarded items) = map render_error (failures items).
Proof.
  induction items as [|i items IH]; simpl; [reflexivity|].
  unfold failures in *. simpl.
  destruct (item_raises i); simpl; now rewrite IH.
Qed.

(** The unguarded loop stops at the first item that raises. *)
Lemma replay_calls (items : list Item) :
  exists rest, items = calls (fst (replay items)) ++ rest
               /\ (snd (replay items) = Returned -> rest = []).
Proof.
  induction items as [|i items [rest [Heq Hret]]]; simpl.
  - exists []. split; [reflexivity | trivial].
  - destruct (item_raises i) as [e|] eqn:Hi; simpl.
    + exists items. split; [reflexivity | discriminate].
    + destruct (replay items) as [tr c]; simpl in *.
      exists rest. split; [now rewrite <- Heq | assumption].
Qed.

Lemma replay_no_failure (items : list Item) :
  failures items = [] -> replay items = (map Call items, Returned).
Proof.
  unfold failures. induction items as [|i items IH]; simpl; [reflexivity|].
  destruct (item_raises i); [discriminate|]. simpl.
  intros Hf. now rewrite (IH Hf).
Qed.

Lemma do_draw_no_refresh (ls : ListRef) (st : Data) :
  do_draw false ls st =
    {| effects := replay_guarded (fetch st ls) ++ [Flip];
       completion := Returned;
       final := clear_list ls st |}.
Proof. reflexivity. Qed.

Lemma do_draw_refresh (ls : ListRef) (st : Data) :
  failures (background_list st) = [] ->
  do_draw true ls st =
    {| effects := Fill (background st) :: map Call (background_list st)
                    ++ replay_guarded (fetch st ls) ++ [Flip];
       completion := Returned;
       final := clear_list ls st |}.
Proof.
  intros Hf. unfold do_draw. now rewrite (replay_no_failure _ Hf).
Qed.

(** Whatever a composite calls, it calls in the order background list, then
    captured list; it calls all of it unless an exception gets out. *)
Lemma do_draw_calls (r : bool) (ls : ListRef) (st : Data) :
  exists rest,
    (if r then background_list st else []) ++ fetch st ls
    = calls (effects (do_draw r ls st)) ++ rest
    /\ (completion (do_draw r ls st) = Returned -> rest = []).
Proof.
  destruct r.
  - unfold do_draw.
    destruct (replay_calls (background_list st)) as [rest [Heq Hret]].
    destruct (replay (background_list st)) as [tr c]; simpl in *.
    destruct c as [|e]; simpl.
    + exists []. split; [|trivial].
      rewrite (Hret eq_refl) in Heq. rewrite app_nil_r in *.
      rewrite !calls_app, calls_replay_guarded. simpl.
      now rewrite app_nil_r, <- Heq.
    + exists (rest ++ fetch st ls). split; [|discriminate].
      rewrite Heq at 1. now rewrite <- app_assoc.
  - rewrite do_draw_no_refresh. simpl. exists []. split; [|trivial].
    now rewrite calls_app, calls_replay_guarded, !app_nil_r.
Qed.

(** A composite that completes has flipped the buffer last and has reported
    every failure of its captured list. *)
Lemma do_draw_returned (r : bool) (ls : ListRef) (st : Data) :
  completion (do_draw r ls st) = Returned ->
  last (effects (do_draw r ls st)) = Some Flip
  /\ prints (effects (do_draw r ls st))
     = map render_error (failures (fetch st ls))
  /\ final (do_draw r ls st) = clear_list ls st.
Proof.
  destruct r.
  - unfold do_draw.
    pose proof (replay_calls (background_list st)) as [rest [Heq _]].
    destruct (replay (background_list st)) as [tr c] eqn:Hrep; simpl in *.
    destruct c as [|e]; simpl; [intros _ | discriminate].
    split; [|split; [|reflexivity]].
    + rewrite app_comm_cons, app_assoc. apply last_snoc.
    + assert (Hnp : forall items, prints (fst (replay items)) = []).
      { clear. induction items as [|i items IH]; simpl; [reflexivity|].
        destruct (item_raises i); [reflexivity|].
        destruct (replay items); simpl in *. exact IH. }
      specialize (Hnp (background_list st)). rewrite Hrep in Hnp.
      simpl in Hnp.
      change (prints (Fill (background st) :: tr ++ _))
        with (prints (tr ++ replay_guarded (fetch st ls) ++ [Flip])).
      rewrite !prints_app, Hnp, prints_replay_guarded. simpl.
      now rewrite app_nil_r.
  - intros _. rewrite do_draw_no_refresh. simpl.
    split; [apply last_snoc|split; [|reflexivity]].
    rewrite prints_app, prints_replay_guarded. simpl. now rewrite app_nil_r.
Qed.

(** ** redraw *)

(** Right after [redraw()] the queued composite holds the pending list
    itself, which the call has just emptied. *)
Lemma redraw_captures_alias (st : Data) :
  last (TimedQueue.elements (render_commands (redraw st)))
  = Some {| refresh := true; captured := PendingList |}
  /\ fetch (redraw st) PendingList = []
  /\ snapshots (redraw st) = snapshots st.
Proof.
  unfold redraw. simpl. split; [apply last_snoc | split; reflexivity].
Qed.

(** X20.  What a [redraw()] composite does when the pending list is empty at the
    time it runs and no background item raises: fill, background list in
    order, flip. *)
Lemma redraw_composite_on_empty_list (st : Data) :
  draw_list st = [] ->
  failures (background_list st) = [] ->
  effects (do_draw true PendingList st)
  = Fill (background st) :: map Call (background_list st) ++ [Flip].
Proof.
  intros Hempty Hf. rewrite (do_draw_refresh _ _ Hf). simpl.
  now rewrite Hempty.
Qed.

(** C2.  One item [a] is pending when [redraw()] is called; the render
    thread then polls at a clock reading of 2 s and executes the composite.
    The composite fills and flips, and [a] is never called. *)
Theorem redraw_composite_loses_pending_items :
  let a := {| item_id := 1; item_raises := None |} in
  let st0 := api_steps [CallShape a] (start "white" Data_init) in
  let st := redraw st0 in
  draw_list st0 = [a]
  /\ TimedQueue.elements (render_commands st)
     = [{| refresh := true; captured := PendingList |}]
  /\ fetch st PendingList = []
  /\ effects (render_section 2 2 st) = [Fill "white"; Flip]
  /\ completion (render_section 2 2 st) = Returned
  /\ calls (effects (render_section 2 2 st)) = [].
Proof. by_evaluation. Qed.

(** C7.  The background list holds [b], already drawn once.  [redraw()] is
    called with nothing pending, then the caller builds a shape [a], then
    the render thread executes the composite: it fills, replays [b], and
    goes on to call [a], which is not in the background list; [a] is then
    gone from the pending list. *)
Theorem redraw_composite_runs_later_items :
  let b := {| item_id := 1; item_raises := None |} in
  let a := {| item_id := 2; item_raises := None |} in
  let st0 := api_steps [CallBackgroundBegin; CallShape b; CallBackgroundEnd;
                        CallDraw] (start "white" Data_init) in
  let st1 := final (render_section 2 2 st0) in
  let st2 := redraw st1 in
  let st3 := add_draw_item a st2 in
  draw_list st1 = []
  /\ background_list st1 = [b]
  /\ TimedQueue.elements (render_commands st2)
     = [{| refresh := true; captured := PendingList |}]
  /\ effects (render_section 4 4 st3) = [Fill "white"; Call b; Call a; Flip]
  /\ calls (effects (render_section 4 4 st3)) <> background_list st3
  /\ draw_list (final (render_section 4 4 st3)) = [].
Proof. by_evaluation. Qed.

(** C5.  Two shapes are built in background-capture mode, the first of which
    raises when called.  Flushed by [draw()], the composite catches the
    exception, reports it, calls the second shape and flips.  On the
    [redraw()] that follows, the replay of the background list calls the
    first shape outside any handler: the exception leaves [do_draw], the
    second shape is not called, the buffer is not flipped, and the window
    loop ends with the exception. *)
Theorem raising_background_item_escapes :
  let bad := {| item_id := 1; item_raises := Some "bad shape"%string |} in
  let good := {| item_id := 2; item_raises := None |} in
  let st0 := api_steps [CallBackgroundBegin; CallShape bad; CallShape good;
                        CallBackgroundEnd; CallDraw]
                       (start "white" Data_init) in
  let r1 := render_section 2 2 st0 in
  let st1 := redraw (final r1) in
  let r2 := render_section 4 4 st1 in
  effects r1 = [Call bad; Print (render_error "bad shape"); Call good; Flip]
  /\ completion r1 = Returned
  /\ background_list st1 = [bad; good]
  /\ effects r2 = [Fill "white"; Call bad]
  /\ completion r2 = Raised "bad shape"
  /\ existsb is_flip (effects r2) = false
  /\ snd (window_loop
            [{| before_render := []; clock := (4, 4)%float; polled := [] |}] st1)
     = Crashed "bad shape" (final r2).
Proof. by_evaluation. Qed.

(** X17.  What does hold of failures: in a composite that completes, every item
    of the captured list is called, in order, each failure is reported, and
    the buffer is flipped last.  A composite without refresh always
    completes. *)
Lemma captured_failures_are_isolated (r : bool) (ls : ListRef) (st : Data) :
  (r = false \/ failures (background_list st) = []) ->
  completion (do_draw r ls st) = Returned
  /\ calls (effects (do_draw r ls st))
     = (if r then background_list st else []) ++ fetch st ls
  /\ prints (effects (do_draw r ls st))
     = map render_error (failures (fetch st ls))
  /\ last (effects (do_draw r ls st)) = Some Flip.
Proof.
  intros Hok.
  assert (Hc : completion (do_draw r ls st) = Returned).
  { destruct Hok as [-> | Hf]; [reflexivity|].
    destruct r; [now rewrite (do_draw_refresh _ _ Hf) | reflexivity]. }
  split; [exact Hc|].
  destruct (do_draw_returned r ls st Hc) as [Hlast [Hprints _]].
  destruct (do_draw_calls r ls st) as [rest [Heq Hrest]].
  rewrite (Hrest Hc), app_nil_r in Heq.
  now rewrite <- Heq.
Qed.

(** ** draw *)

(** No caller call touches a list object made by an earlier [copy()]. *)
Lemma api_step_keeps_snapshot (a : Api) (st : Data) (n : nat) (l : list Item) :
  snapshots st !! n = Some l -> snapshots (api_step a st) !! n = Some l.
Proof.
  intros Hn. destruct a; simpl; try exact Hn.
  - unfold add_draw_item. now destruct (draw_background st).
  - now apply lookup_app_l_Some.
Qed.

Lemma api_steps_keep_snapshot (cs : list Api) : forall st n l,
  snapshots st !! n = Some l -> snapshots (api_steps cs st) !! n = Some l.
Proof.
  induction cs as [|a cs IH]; intros st n l Hn; simpl; [exact Hn|].
  apply IH. now apply api_step_keeps_snapshot.
Qed.

(** C8.  [draw()] appends to the queue a composite with [refresh = false]
    whose list is a new object holding what was pending; it empties the
    pending list and leaves the background list alone.  What the caller does
    afterwards does not reach the copy, and executing the composite, in
    whatever later state, changes neither the pending list nor the
    background list. *)
Theorem draw_enqueues_copy (st : Data) :
  let c := {| refresh := false; captured := Snapshot (length (snapshots st)) |} in
  let st1 := draw st in
  TimedQueue.elements (render_commands st1)
  = TimedQueue.elements (render_commands st) ++ [c]
  /\ captured c <> PendingList
  /\ snapshots st !! length (snapshots st) = None
  /\ fetch st1 (captured c) = draw_list st
  /\ draw_list st1 = []
  /\ background_list st1 = background_list st
  /\ (forall cs : list Api,
        fetch (api_steps cs st1) (captured c) = draw_list st)
  /\ (forall st2 : Data,
        draw_list (final (do_draw (refresh c) (captured c) st2)) = draw_list st2
        /\ background_list (final (do_draw (refresh c) (captured c) st2))
           = background_list st2).
Proof.
  intros c st1. subst c st1.
  assert (Hnew : (snapshots st ++ [draw_list st]) !! length (snapshots st)
                 = Some (draw_list st)).
  { rewrite lookup_app_r by lia. now rewrite Nat.sub_diag. }
  repeat split; simpl.
  - discriminate.
  - apply lookup_ge_None. lia.
  - now rewrite Hnew.
  - intros cs.
    now rewrite (api_steps_keep_snapshot cs (draw st) _ _ Hnew).
Qed.

(** ** Order *)

Lemma api_steps_shapes (items : list Item) : forall st,
  draw_list (api_steps (map CallShape items) st) = draw_list st ++ items
  /\ snapshots (api_steps (map CallShape items) st) = snapshots st.
Proof.
  induction items as [|i items IH]; intros st; simpl.
  - now rewrite app_nil_r.
  - destruct (IH (add_draw_item i st)) as [Hd Hs]. rewrite Hd, Hs.
    unfold add_draw_item. destruct (draw_background st); simpl;
      now rewrite <- app_assoc.
Qed.

(** C9.  Queue: whatever is pushed, polled or re-timed, the elements handed
    out followed by the elements still queued are the elements queued at
    the start followed by the elements pushed, in push order; and polls that
    find the gate open hand out the front of the queue, one element each.
    Composite: the items a composite calls are a front part of background
    list (on a refresh) followed by captured list, in list order, and all of
    it when the composite completes; shapes built one after the other and
    flushed by [draw()] are called in the order they were built. *)
Theorem commands_and_items_keep_their_order
    {A : Type} `{PyEq A} (ops : list (TimedQueue.op A)) (q : TimedQueue.t_ A) :
  fst (TimedQueue.run ops q) ++ TimedQueue.elements (snd (TimedQueue.run ops q))
  = TimedQueue.elements q ++ TimedQueue.pushed ops
  /\ (forall clock : list (float * float),
        TimedQueue.gate_open_throughout clock q ->
        fst (TimedQueue.run (TimedQueue.polls clock) q)
        = take (length clock) (TimedQueue.elements q)
        /\ TimedQueue.elements (snd (TimedQueue.run (TimedQueue.polls clock) q))
           = drop (length clock) (TimedQueue.elements q))
  /\ (forall (r : bool) (ls : ListRef) (st : Data),
        exists rest,
          (if r then background_list st else []) ++ fetch st ls
          = calls (effects (do_draw r ls st)) ++ rest
          /\ (completion (do_draw r ls st) = Returned -> rest = []))
  /\ (forall (items : list Item) (st : Data),
        let st1 := draw (api_steps (map CallShape items) st) in
        exists c,
          last (TimedQueue.elements (render_commands st1)) = Some c
          /\ calls (effects (do_draw (refresh c) (captured c) st1))
             = draw_list st ++ items).
Proof.
  split; [apply run_conserves|].
  split; [intros clock; apply run_polls_open|].
  split; [apply do_draw_calls|].
  intros items st st1. subst st1.
  destruct (api_steps_shapes items st) as [Hd Hs].
  eexists. split; [unfold draw; simpl; apply last_snoc|].
  rewrite do_draw_no_refresh. simpl.
  rewrite calls_app, calls_replay_guarded. simpl. rewrite app_nil_r.
  rewrite lookup_app_r by lia. rewrite Nat.sub_diag. simpl. exact Hd.
Qed.

(** C9 at work: three commands are queued with a cooldown of 1 s; polls at
    2 s and 4 s hand out the first two, in push order, and leave the third. *)
Lemma commands_and_items_keep_their_order_witness :
  let q := snd (TimedQueue.run
                  (map TimedQueue.Push [1%nat; 2%nat; 3%nat])
                  (TimedQueue.init 1000)) in
  fst (TimedQueue.run (TimedQueue.polls [(2, 2); (4, 4)]%float) q) = [1%nat; 2%nat]
  /\ TimedQueue.elements
       (snd (TimedQueue.run (TimedQueue.polls [(2, 2); (4, 4)]%float) q))
     = [3%nat].
Proof.
  intros q.
  destruct (commands_and_items_keep_their_order [] q) as (_ & Hpolls & _).
  apply (Hpolls [(2, 2); (4, 4)]%float).
  split; [vm_compute; reflexivity | split; [vm_compute; reflexivity | exact I]].
Defined.

Example three_commands_leave_in_push_order :
  fst (TimedQueue.run
         (map TimedQueue.Push [1%nat; 2%nat; 3%nat]
            ++ TimedQueue.polls [(2, 2); (4, 4); (5, 5); (7, 7); (9, 9)]%float)
         (TimedQueue.init 1000))
  = [1%nat; 2%nat; 3%nat].
Proof. vm_compute. reflexivity. Qed.

(** ** The window loop and the [running] flag *)

Lemma api_step_running (a : Api) (st : Data) :
  running (api_step a st) = running st.
Proof.
  destruct a; simpl; try reflexivity.
  unfold add_draw_item. now destruct (draw_background st).
Qed.

(** Only [done()] writes the [done] flag, and it only ever sets it. *)
Lemma api_step_done (a : Api) (st : Data) :
  done (api_step a st) = is_done_call a || done st.
Proof.
  destruct a; simpl; try reflexivity.
  unfold add_draw_item. now destruct (draw_background st).
Qed.

Lemma api_steps_running (cs : list Api) : forall st,
  running (api_steps cs st) = running st.
Proof.
  induction cs as [|a cs IH]; intros st; simpl; [reflexivity|].
  now rewrite IH, api_step_running.
Qed.

Lemma api_steps_done (cs : list Api) : forall st,
  done (api_steps cs st) = existsb is_done_call cs || done st.
Proof.
  induction cs as [|a cs IH]; intros st; simpl; [reflexivity|].
  rewrite IH, api_step_done.
  destruct (is_done_call a), (existsb is_done_call cs); simpl;
    reflexivity.
Qed.

Lemma clear_list_flags (ls : ListRef) (st : Data) :
  running (clear_list ls st) = running st
  /\ done (clear_list ls st) = done st.
Proof. destruct ls; split; reflexivity. Qed.

Lemma do_draw_flags (r : bool) (ls : ListRef) (st : Data) :
  running (final (do_draw r ls st)) = running st
  /\ done (final (do_draw r ls st)) = done st.
Proof.
  unfold do_draw. destruct r.
  - destruct (replay (background_list st)) as [tr [|e]]; simpl;
      [apply clear_list_flags | split; reflexivity].
  - simpl. apply clear_list_flags.
Qed.

Lemma render_section_flags (now1 now2 : float) (st : Data) :
  running (final (render_section now1 now2 st)) = running st
  /\ done (final (render_section now1 now2 st)) = done st.
Proof.
  unfold render_section.
  destruct (TimedQueue.pop now1 now2 (render_commands st)) as [[c|] q].
  - apply (do_draw_flags (refresh c) (captured c) (with_queue q st)).
  - split; reflexivity.
Qed.

(** The one assignment [data.running = False]. *)
Lemma check_event_running (e : EventType) (st : Data) :
  running (check_event e st) = running st && negb (is_quit e && done st).
Proof.
  unfold check_event. destruct (is_quit e && done st); simpl;
    [now rewrite andb_false_r | now rewrite andb_true_r].
Qed.

Lemma check_event_done (e : EventType) (st : Data) :
  done (check_event e st) = done st.
Proof. unfold check_event. now destruct (is_quit e && done st). Qed.

Lemma check_event_clears (e : EventType) (st : Data) :
  running st = true -> running (check_event e st) = false ->
  e = QUIT /\ done st = true.
Proof.
  rewrite check_event_running. intros -> Hoff. simpl in Hoff.
  apply negb_false_iff, andb_true_iff in Hoff. destruct Hoff as [Hq Hd].
  split; [now destruct e | exact Hd].
Qed.

(** A close request met before [done()] changes nothing at all. *)
Lemma check_event_before_done (e : EventType) (st : Data) :
  done st = false -> check_event e st = st.
Proof. intros Hd. unfold check_event. now rewrite Hd, andb_false_r. Qed.

Lemma poll_events_done (evs : list (list Api * EventType)) : forall st,
  done (poll_events evs st)
  = existsb (fun ce => existsb is_done_call (fst ce)) evs || done st.
Proof.
  induction evs as [|[cs e] evs IH]; intros st; simpl; [reflexivity|].
  rewrite IH, check_event_done, api_steps_done.
  destruct (existsb is_done_call cs),
           (existsb (fun ce => existsb is_done_call (fst ce)) evs);
    reflexivity.
Qed.

Lemma poll_events_clears (evs : list (list Api * EventType)) : forall st,
  running st = true -> running (poll_events evs st) = false ->
  done (poll_events evs st) = true
  /\ existsb (fun ce => is_quit (snd ce)) evs = true.
Proof.
  induction evs as [|[cs e] evs IH]; intros st Hon Hoff; simpl in *;
    [congruence|].
  destruct (running (check_event e (api_steps cs st))) eqn:Hmid.
  - destruct (IH _ Hmid Hoff) as [Hd Hq]. split; [exact Hd|].
    now rewrite Hq, orb_true_r.
  - assert (Hon' : running (api_steps cs st) = true)
      by now rewrite api_steps_running.
    destruct (check_event_clears _ _ Hon' Hmid) as [-> Hd]. simpl.
    split; [|reflexivity].
    rewrite poll_events_done, check_event_done, Hd. apply orb_true_r.
Qed.

Lemma poll_events_before_done (evs : list (list Api * EventType)) : forall st,
  done st = false ->
  existsb (fun ce => existsb is_done_call (fst ce)) evs = false ->
  running (poll_events evs st) = running st.
Proof.
  induction evs as [|[cs e] evs IH]; intros st Hd Hnone; simpl in *;
    [reflexivity|].
  apply orb_false_iff in Hnone. destruct Hnone as [Hcs Hevs].
  assert (Hd' : done (api_steps cs st) = false)
    by now rewrite api_steps_done, Hcs, Hd.
  rewrite (check_event_before_done e _ Hd').
  now rewrite (IH _ Hd' Hevs), api_steps_running.
Qed.

Lemma window_loop_stopped (script : list Iteration) (st : Data) :
  running st = false -> window_loop script st = ([], Exited st).
Proof. intros Hoff. destruct script; simpl; now rewrite Hoff. Qed.

Lemma window_loop_exit (script : list Iteration) : forall st st',
  running st = true ->
  snd (window_loop script st) = Exited st' ->
  running st' = false /\ done st' = true /\ delivers_quit script = true.
Proof.
  induction script as [|it rest IH]; intros st st' Hon Hexit; simpl in *;
    rewrite Hon in Hexit; [discriminate|].
  set (r := render_section (fst (clock it)) (snd (clock it))
                           (api_steps (before_render it) st)) in *.
  assert (Hr : running (final r) = true).
  { subst r. destruct (render_section_flags (fst (clock it)) (snd (clock it))
                         (api_steps (before_render it) st)) as [-> _].
    now rewrite api_steps_running. }
  destruct (completion r); [|discriminate].
  destruct (running (poll_events (polled it) (final r))) eqn:Hafter.
  - destruct (window_loop rest (poll_events (polled it) (final r)))
      as [tr fin] eqn:Hloop. simpl in Hexit. subst fin.
    destruct (IH _ st' Hafter) as [H1 [H2 H3]]; [now rewrite Hloop|].
    repeat split; try assumption. now rewrite H3, orb_true_r.
  - rewrite (window_loop_stopped _ _ Hafter) in Hexit. simpl in Hexit.
    injection Hexit as <-.
    destruct (poll_events_clears _ _ Hr Hafter) as [Hd Hq].
    repeat split; try assumption. now rewrite Hq.
Qed.

Lemma window_loop_before_done (script : list Iteration) : forall st,
  running st = true -> done st = false -> calls_done script = false ->
  match snd (window_loop script st) with
  | Exited _ => False
  | Crashed _ s | Pending s => running s = true /\ done s = false
  end.
Proof.
  induction script as [|it rest IH]; intros st Hon Hd Hnone; simpl in *;
    rewrite Hon; [now split|].
  apply orb_false_iff in Hnone. destruct Hnone as [Hit Hrest].
  apply orb_false_iff in Hit. destruct Hit as [Hpre Hevs].
  set (r := render_section (fst (clock it)) (snd (clock it))
                           (api_steps (before_render it) st)) in *.
  assert (Hr : running (final r) = true /\ done (final r) = false).
  { subst r. destruct (render_section_flags (fst (clock it)) (snd (clock it))
                         (api_steps (before_render it) st)) as [-> ->].
    now rewrite api_steps_running, api_steps_done, Hpre, Hd. }
  destruct Hr as [Hr Hdr].
  destruct (completion r); simpl; [|now split].
  specialize (IH (poll_events (polled it) (final r))).
  destruct (window_loop rest (poll_events (polled it) (final r)))
    as [tr fin]. simpl in *.
  apply IH; [| |exact Hrest].
  - now rewrite (poll_events_before_done _ _ Hdr Hevs).
  - now rewrite poll_events_done, Hevs, Hdr.
Qed.

(** C6.  From a state in which the loop is running: the event check clears
    [running] only on a window-close event met with [done] set; no caller
    call and no rendering block writes [running]; if the loop exits, it has
    been delivered a window-close event and [done] is set; and as long as
    [done()] has not been called, no script of iterations, whatever
    window-close events it delivers, makes the loop exit: the loop is still
    running afterwards (or an exception from a draw item has ended it), with
    [running] still true. *)
Theorem window_closes_only_after_done (script : list Iteration) (st : Data) :
  running st = true ->
  (forall (e : EventType) (s : Data),
      running s = true -> running (check_event e s) = false ->
      e = QUIT /\ done s = true)
  /\ (forall (a : Api) (s : Data), running (api_step a s) = running s)
  /\ (forall (now1 now2 : float) (s : Data),
        running (final (render_section now1 now2 s)) = running s)
  /\ (forall st' : Data,
        snd (window_loop script st) = Exited st' ->
        running st' = false /\ done st' = true
        /\ delivers_quit script = true)
  /\ (done st = false -> calls_done script = false ->
      match snd (window_loop script st) with
      | Exited _ => False
      | Crashed _ s | Pending s => running s = true /\ done s = false
      end).
Proof.
  intros Hon.
  split; [exact check_event_clears|].
  split; [exact api_step_running|].
  split; [intros now1 now2 s; apply render_section_flags|].
  split.
  - intros st'. now apply window_loop_exit.
  - now apply window_loop_before_done.
Qed.

(** C6 at work: two close requests reach a window whose program has not
    called [done()], and the loop goes on. *)
Lemma window_closes_only_after_done_witness :
  let a := {| item_id := 1; item_raises := None |} in
  let script :=
    [ {| before_render := [CallShape a; CallDraw]; clock := (2, 2)%float;
         polled := [([], QUIT); ([], OTHER 4)] |};
      {| before_render := []; clock := (4, 4)%float; polled := [([], QUIT)] |} ] in
  delivers_quit script = true
  /\ match snd (window_loop script (start "white" Data_init)) with
     | Exited _ => False
     | Crashed _ s | Pending s => running s = true /\ done s = false
     end.
Proof.
  intros a script. split; [reflexivity|].
  destruct (window_closes_only_after_done
              script (start "white" Data_init) eq_refl)
    as (_ & _ & _ & _ & Hgoes_on).
  exact (Hgoes_on eq_refl eq_refl).
Defined.

(** The same close request after [done()] ends the loop, and
    [pygame.quit()] follows. *)
Example close_after_done_exits :
  let script :=
    [ {| before_render := []; clock := (2, 2)%float; polled := [([], QUIT)] |};
      {| before_render := [CallDone]; clock := (4, 4)%float;
         polled := [([], QUIT)] |};
      {| before_render := []; clock := (6, 6)%float; polled := [] |} ] in
  exists st',
    pygame_loop "white" script (start "white" Data_init)
    = ([Fill "white"; Flip; PygameQuit], Exited st')
    /\ running st' = false.
Proof. eexists. split; vm_compute; reflexivity. Qed.

(** ** From the caller to the window *)





Example three_items_drawn_once_in_order :
  let a := {| item_id := 1; item_raises := None |} in
  let b := {| item_id := 2; item_raises := None |} in
  let c := {| item_id := 3; item_raises := None |} in
  let script :=
    [ {| before_render := [CallShape a; CallShape b; CallShape c; CallDraw];
         clock := (2, 2)%float; polled := [([], OTHER 1)] |};
      {| before_render := []; clock := (4, 4)%float; polled := [([], QUIT)] |};
      {| before_render := []; clock := (6, 6)%float; polled := [] |} ] in
  fst (window_loop script (start "white" Data_init))
  = [Call a; Call b; Call c; Flip].
Proof. by_evaluation. Qed.

(** * Further properties *)

(** ** The queue's timer *)

Section TimerFacts.
Context {A : Type} `{PyEq A}.
Import TimedQueue.

Implicit Types (q : t_ A) (ops : list (op A)).

(** X1.  Over any run of pushes, cooldown changes and polls on which the
    gate stays closed, nothing is handed out, what is pushed queues up in
    order, the cooldown is the one set last, and [time_since] is the
    binary64 sum, poll after poll, of each poll's second clock reading minus
    the first reading of the poll before it (the reading stored before the
    run, for the first poll).  The time between the two readings of a poll
    thus enters the sum twice. *)
Theorem closed_polls_accumulate ops q :
  polls_closed ops q ->
  let q' := snd (run ops q) in
  fst (run ops q) = []
  /\ elements q' = elements q ++ pushed ops
  /\ cooldown q' = last_cooldown (cooldown q) ops
  /\ time_since q' = summed (time_since q) (t q) (readings ops)
  /\ t q' = List.last (map fst (readings ops)) (t q).
Proof. intros Hclosed q'. subst q'. now apply run_closed. Qed.

(** X2.  Two polls in a row: when the first finds the gate open, the second
    finds it open exactly when the binary64 difference between its second
    clock reading and the first reading of the first poll is greater than
    the cooldown.  No element leaves on the second poll otherwise. *)
Theorem gate_openings_are_spaced q (a1 a2 b1 b2 : float) :
  gate a2 q = true ->
  let q1 := snd (pop a1 a2 q) in
  gate b2 q1 = float_gt (b2 - a1) (cooldown q)
  /\ (forall el : A,
        fst (pop b1 b2 q1) = Some el ->
        float_gt (b2 - a1) (cooldown q) = true).
Proof.
  intros Hopen q1. subst q1. rewrite (pop_open q a1 a2 Hopen). simpl.
  set (q1 := {| elements := tail (elements q); cooldown := cooldown q;
                time_since := 0%float; t := a1 |}).
  assert (Hgate : gate b2 q1 = float_gt (b2 - a1) (cooldown q)).
  { unfold gate, accumulated, float_gt. simpl.
    rewrite !ltb_spec, add_spec, Prim2SF_zero. unfold SFltb.
    destruct (Prim2SF (b2 - a1)) as [s | s | | s m e]; try reflexivity.
    unfold SF64add. simpl.
    destruct s; simpl;
      now rewrite (SFcompare_zero_sign _ false true) || reflexivity. }
  split; [exact Hgate|]. intros el Hel. rewrite <- Hgate.
  destruct (gate_cases q1 b2) as [Hg | Hg]; [exact Hg|].
  rewrite (pop_closed _ _ _ Hg) in Hel. discriminate.
Qed.

(** X3.  [set_cooldown] neither restarts nor rescales the timer.  After any
    run on which the gate stays closed, a call of [set_cooldown(cool)] and a
    poll: the poll hands out the head exactly when the sum accumulated over
    the run and this poll is greater than [cool / 1000.0]. *)
Theorem set_cooldown_applies_at_next_poll ops q (cool now1 now2 : float)
    (el : A) :
  polls_closed ops q ->
  let q1 := set_cooldown cool (snd (run ops q)) in
  let acc := summed (time_since q) (t q) (readings ops ++ [(now1, now2)]) in
  gate now2 q1 = float_gt acc (cool / 1000)
  /\ (fst (pop now1 now2 q1) = Some el
      <-> float_gt acc (cool / 1000) = true
          /\ head (elements q ++ pushed ops) = Some el).
Proof.
  intros Hclosed q1 acc.
  destruct (run_closed ops q Hclosed) as (_ & Hels & _).
  assert (Hgate : gate now2 q1 = float_gt acc (cool / 1000)).
  { subst q1 acc. unfold gate.
    rewrite <- (accumulated_after_closed ops q now1 now2 Hclosed).
    reflexivity. }
  split; [exact Hgate|]. rewrite <- Hgate, <- Hels.
  destruct (gate_cases q1 now2) as [Hg | Hg].
  - rewrite (pop_open _ _ _ Hg), Hg. simpl. tauto.
  - rewrite (pop_closed _ _ _ Hg), Hg. simpl.
    split; [discriminate | intros [Hf _]; discriminate].
Qed.

End TimerFacts.

(** ** What a step does to the shared state *)

(** The rendering block either leaves the queue's elements alone, or takes
    the head off and runs it. *)
Lemma render_section_shape (now1 now2 : float) (st : Data) :
  let q := render_commands st in
  (exists q', TimedQueue.elements q' = TimedQueue.elements q
              /\ render_section now1 now2 st
                 = {| effects := []; completion := Returned;
                      final := with_queue q' st |})
  \/ (TimedQueue.gate now2 q = true
      /\ exists c rest q',
           TimedQueue.elements q = c :: rest
           /\ TimedQueue.elements q' = rest
           /\ render_section now1 now2 st
              = do_draw (refresh c) (captured c) (with_queue q' st)).
Proof.
  intros q. subst q. unfold render_section.
  destruct (@gate_cases _ (render_commands st) now2) as [Hopen | Hclosed].
  - rewrite (@pop_open _ (Command_PyEq st) _ _ _ Hopen).
    destruct (TimedQueue.elements (render_commands st)) as [|c rest] eqn:Hels;
      simpl.
    + left. eexists. split; [|reflexivity]. reflexivity.
    + right. split; [exact Hopen|]. exists c, rest. eexists.
      split; [reflexivity|]. split; [|reflexivity]. reflexivity.
  - rewrite (@pop_closed _ (Command_PyEq st) _ _ _ Hclosed).
    left. eexists. split; [|reflexivity]. reflexivity.
Qed.

Lemma do_draw_final (r : bool) (ls : ListRef) (st : Data) :
  final (do_draw r ls st) = st \/ final (do_draw r ls st) = clear_list ls st.
Proof.
  unfold do_draw. destruct r; [|now right].
  destruct (replay (background_list st)) as [tr [|e]]; [now right | now left].
Qed.

(** What the rendering block can have done to the state when it is over. *)
Lemma render_section_final (now1 now2 : float) (st : Data) :
  let st' := final (render_section now1 now2 st) in
  (exists q', TimedQueue.elements q' = TimedQueue.elements (render_commands st)
              /\ st' = with_queue q' st)
  \/ (exists c rest q',
        TimedQueue.elements (render_commands st) = c :: rest
        /\ TimedQueue.elements q' = rest
        /\ (st' = with_queue q' st
            \/ st' = clear_list (captured c) (with_queue q' st))).
Proof.
  intros st'. subst st'.
  destruct (render_section_shape now1 now2 st)
    as [(q' & Hels & ->) | (_ & c & rest & q' & Hels & Hrest & ->)].
  - left. now exists q'.
  - right. exists c, rest, q'. split; [exact Hels|]. split; [exact Hrest|].
    apply do_draw_final.
Qed.

Lemma clear_list_frame (ls : ListRef) (st : Data) :
  background_list (clear_list ls st) = background_list st
  /\ render_commands (clear_list ls st) = render_commands st
  /\ length (snapshots (clear_list ls st)) = length (snapshots st).
Proof.
  destruct ls; simpl; repeat split. apply length_insert.
Qed.

(** ** The background list only grows *)

Lemma act_background_list (a : Action) (st : Data) :
  background_list st `prefix_of` background_list (act a st).
Proof.
  destruct a as [c | now1 now2 | e]; simpl.
  - destruct c; simpl; try reflexivity.
    unfold add_draw_item. destruct (draw_background st); simpl;
      [apply prefix_app_r|]; reflexivity.
  - destruct (render_section_final now1 now2 st)
      as [(q' & _ & ->) | (c & rest & q' & _ & _ & [-> | ->])]; simpl;
      try reflexivity.
    now destruct (clear_list_frame (captured c) (with_queue q' st)) as [-> _].
  - unfold check_event. now destruct (is_quit e && done st).
Qed.

(** X4.  Nothing ever leaves the background list: whatever the caller and
    the render thread do, in whatever order, the list keeps what it held, in
    place, and only grows at its end.  Every refresh therefore replays every
    shape ever built in capture mode. *)
Theorem background_list_only_grows (l : list Action) (st : Data) :
  background_list st `prefix_of` background_list (acts l st).
Proof.
  revert st. induction l as [|a l IH]; intros st; simpl; [reflexivity|].
  etransitivity; [apply act_background_list | apply IH].
Qed.

(** ** Counting queued commands *)

Lemma api_step_queue_length (a : Api) (st : Data) :
  queue_length (api_step a st)
  = (queue_length st + (if is_flush a then 1 else 0))%nat.
Proof.
  unfold queue_length.
  destruct a; simpl; rewrite ?length_app; simpl; try lia.
  unfold add_draw_item. destruct (draw_background st); simpl; lia.
Qed.

Lemma render_queue_length (now1 now2 : float) (st : Data) :
  (queue_length (final (render_section now1 now2 st)) <= queue_length st
   <= queue_length (final (render_section now1 now2 st)) + 1)%nat.
Proof.
  unfold queue_length.
  destruct (render_section_final now1 now2 st)
    as [(q' & Hq & ->) | (c & rest & q' & Hels & Hq & [-> | ->])].
  - simpl. rewrite Hq. lia.
  - simpl. rewrite Hq, Hels. simpl. lia.
  - destruct (clear_list_frame (captured c) (with_queue q' st)) as (_ & -> & _).
    simpl. rewrite Hq, Hels. simpl. lia.
Qed.

Lemma act_queue_length (a : Action) (st : Data) :
  (queue_length (act a st) <= queue_length st + flushes [a]
   /\ queue_length st + flushes [a] <= queue_length (act a st) + renders [a])%nat.
Proof.
  destruct a as [c | now1 now2 | e]; simpl.
  - rewrite api_step_queue_length. lia.
  - pose proof (render_queue_length now1 now2 st). lia.
  - unfold check_event, queue_length.
    destruct (is_quit e && done st); simpl; lia.
Qed.

(** X5.  Only [draw()] and [redraw()] put commands on the queue, one per
    call and whether or not anything is pending; only the rendering block
    takes commands off, at most one per turn of the window loop.  After any
    steps, the queue holds at most what it held plus the flushes, and at
    least that minus the turns taken. *)
Theorem queue_length_accounting (l : list Action) (st : Data) :
  (queue_length (acts l st) <= queue_length st + flushes l
   /\ queue_length st + flushes l <= queue_length (acts l st) + renders l)%nat.
Proof.
  revert st. induction l as [|a l IH]; intros st; [simpl; lia|].
  change (acts (a :: l) st) with (acts l (act a st)).
  specialize (IH (act a st)).
  pose proof (act_queue_length a st) as Ha.
  destruct a as [c | now1 now2 | e]; simpl in *; lia.
Qed.

(** ** The copies held by queued commands *)

Lemma act_snapshots_length (a : Action) (st : Data) :
  (length (snapshots st) <= length (snapshots (act a st)))%nat.
Proof.
  destruct a as [c | now1 now2 | e]; simpl.
  - destruct c; simpl; rewrite ?length_app; simpl; try lia.
    unfold add_draw_item. destruct (draw_background st); simpl; lia.
  - destruct (render_section_final now1 now2 st)
      as [(q' & _ & ->) | (c & rest & q' & _ & _ & [-> | ->])]; simpl;
      try lia.
    destruct (clear_list_frame (captured c) (with_queue q' st)) as (_ & _ & ->).
    simpl. lia.
  - unfold check_event. destruct (is_quit e && done st); simpl; lia.
Qed.

(** One step on a well-formed state: the state stays well-formed; a copy
    that existed before and is held by a queued command afterwards was held
    by a queued command before, and has not been written to. *)
Lemma act_snapshots (a : Action) (st : Data) :
  snapshots_wf st ->
  snapshots_wf (act a st)
  /\ forall n : nat,
       (n < length (snapshots st))%nat ->
       n ∈ queued_snapshots (act a st) ->
       n ∈ queued_snapshots st
       /\ snapshots (act a st) !! n = snapshots st !! n.
Proof.
  intros [Hnd Hlt].
  destruct a as [c | now1 now2 | e].
  - destruct c; simpl;
      try (split; [split; assumption | intros n _ Hn; split;
                                       [exact Hn | reflexivity]]).
    + (* a shape *)
      unfold add_draw_item, snapshots_wf, queued_snapshots.
      destruct (draw_background st); simpl;
        (split; [split; assumption | intros n _ Hn; split;
                                     [exact Hn | reflexivity]]).
    + (* draw *)
      unfold snapshots_wf, queued_snapshots, draw in *. simpl.
      rewrite omap_app. simpl. split.
      * split.
        -- apply NoDup_app. split; [exact Hnd|]. split; [|apply NoDup_singleton].
           intros x Hx Hx'. apply list_elem_of_singleton in Hx'. subst x.
           rewrite Forall_forall in Hlt. specialize (Hlt _ Hx). lia.
        -- rewrite length_app. simpl. apply Forall_app. split.
           ++ eapply Forall_impl; [exact Hlt|]. simpl. intros; lia.
           ++ apply Forall_cons. split; [lia | apply Forall_nil; exact I].
      * intros n Hn Hin. apply elem_of_app in Hin.
        destruct Hin as [Hin | Hin].
        -- split; [exact Hin|]. now apply lookup_app_l.
        -- apply list_elem_of_singleton in Hin. lia.
    + (* redraw *)
      unfold snapshots_wf, queued_snapshots, redraw in *. simpl.
      rewrite omap_app. simpl. rewrite app_nil_r.
      split; [split; assumption | intros n _ Hn; split;
                                  [exact Hn | reflexivity]].
  - simpl.
    destruct (render_section_final now1 now2 st)
      as [(q' & Hq & ->) | (c & rest & q' & Hels & Hq & Hfin)].
    + unfold snapshots_wf, queued_snapshots in *. simpl. rewrite Hq.
      split; [split; assumption | intros n _ Hn; split;
                                  [exact Hn | reflexivity]].
    + unfold snapshots_wf, queued_snapshots in Hnd, Hlt.
      rewrite Hels in Hnd, Hlt. simpl in Hnd, Hlt.
      assert (Hrest : NoDup (omap (fun c0 => match captured c0 with
                                            | Snapshot n => Some n
                                            | PendingList => None
                                            end) rest)
                      /\ Forall (fun n => (n < length (snapshots st))%nat)
                           (omap (fun c0 => match captured c0 with
                                            | Snapshot n => Some n
                                            | PendingList => None
                                            end) rest)).
      { destruct (captured c); [split; assumption|].
        apply NoDup_cons in Hnd. apply Forall_cons in Hlt. tauto. }
      destruct Hrest as [Hnd' Hlt'].
      assert (Hsub : forall n,
                 n ∈ omap (fun c0 => match captured c0 with
                                     | Snapshot n => Some n
                                     | PendingList => None
                                     end) rest ->
                 n ∈ queued_snapshots st).
      { intros n Hn. unfold queued_snapshots. rewrite Hels. simpl.
        destruct (captured c); [exact Hn | now apply elem_of_cons; right]. }
      destruct Hfin as [-> | ->].
      * unfold snapshots_wf, queued_snapshots. simpl. rewrite Hq.
        split; [split; assumption|].
        intros n _ Hn. split; [now apply Hsub | reflexivity].
      * destruct (captured c) as [|m] eqn:Hc; simpl;
          unfold snapshots_wf, queued_snapshots; simpl; rewrite Hq.
        -- split; [split; assumption|].
           intros n _ Hn. split; [now apply Hsub | reflexivity].
        -- rewrite length_insert. split; [split; assumption|].
           intros n _ Hn. split; [now apply Hsub|].
           apply list_lookup_insert_ne. intros ->.
           apply NoDup_cons in Hnd. tauto.
  - simpl. unfold check_event.
    destruct (is_quit e && done st);
      (split; [split; assumption | intros n _ Hn; split;
                                   [exact Hn | reflexivity]]).
Qed.

Lemma acts_snapshots (l : list Action) : forall st : Data,
  snapshots_wf st ->
  snapshots_wf (acts l st)
  /\ forall n : nat,
       (n < length (snapshots st))%nat ->
       n ∈ queued_snapshots (acts l st) ->
       n ∈ queued_snapshots st
       /\ snapshots (acts l st) !! n = snapshots st !! n.
Proof.
  induction l as [|a l IH]; intros st Hwf.
  - split; [exact Hwf|]. intros n _ Hn. now split.
  - change (acts (a :: l) st) with (acts l (act a st)).
    destruct (act_snapshots a st Hwf) as [Hwf' Hstep].
    destruct (IH _ Hwf') as [Hwf'' Hrest].
    split; [exact Hwf''|]. intros n Hn Hin.
    pose proof (act_snapshots_length a st) as Hlen.
    destruct (Hrest n ltac:(lia) Hin) as [Hin' Heq].
    destruct (Hstep n Hn Hin') as [Hin0 Heq0].
    split; [exact Hin0 | now rewrite Heq, Heq0].
Qed.

(** X6.  In every state a session can reach, by caller calls, rendering
    blocks and event checks in any order, no two queued commands hold the
    same copy of the pending list, and every copy a queued command holds
    exists. *)
Theorem reachable_snapshots_wf (bg : string) (l : list Action) :
  snapshots_wf (acts l (start bg Data_init)).
Proof.
  apply acts_snapshots. split; [apply NoDup_nil; exact I | apply Forall_nil; exact I].
Qed.

(** X7.  What [draw()] flushes is what gets drawn.  Take any reachable state
    and call [draw()]; let the caller and the render thread go on in any
    way.  If the rendering block then finds that composite at the head of
    the queue with the gate open, it calls exactly the items that were
    pending when [draw()] was called, in order, and completes. *)
Theorem draw_items_reach_the_window (bg : string) (pre post : list Action)
    (now1 now2 : float) :
  let st := acts pre (start bg Data_init) in
  let st2 := acts post (draw st) in
  head (TimedQueue.elements (render_commands st2))
  = Some {| refresh := false; captured := Snapshot (length (snapshots st)) |} ->
  TimedQueue.gate now2 (render_commands st2) = true ->
  calls (effects (render_section now1 now2 st2)) = draw_list st
  /\ completion (render_section now1 now2 st2) = Returned.
Proof.
  intros st st2 Hhead Hgate.
  assert (Hwf1 : snapshots_wf (draw st)).
  { apply (act_snapshots (Caller CallDraw) st).
    apply acts_snapshots.
    split; [apply NoDup_nil; exact I | apply Forall_nil; exact I]. }
  destruct (acts_snapshots post _ Hwf1) as [_ Hkeep]. fold st2 in Hkeep.
  apply head_Some in Hhead. destruct Hhead as [rest Hels].
  destruct (Hkeep (length (snapshots st))) as [_ Hsame].
  { unfold draw. simpl. rewrite length_app. simpl. lia. }
  { unfold queued_snapshots. rewrite Hels. simpl. apply elem_of_cons. now left. }
  assert (Hcopy : snapshots (draw st) !! length (snapshots st)
                  = Some (draw_list st)).
  { unfold draw. simpl. rewrite lookup_app_r by lia. now rewrite Nat.sub_diag. }
  unfold render_section.
  rewrite (@pop_open _ (Command_PyEq st2) _ _ _ Hgate), Hels.
  cbn [head refresh captured]. rewrite do_draw_no_refresh.
  cbn [effects completion]. split; [|reflexivity].
  rewrite calls_app, calls_replay_guarded. simpl.
  now rewrite app_nil_r, Hsame, Hcopy.
Qed.

(** ** Background capture *)

Lemma api_steps_app (cs1 cs2 : list Api) (st : Data) :
  api_steps (cs1 ++ cs2) st = api_steps cs2 (api_steps cs1 st).
Proof. unfold api_steps. apply fold_left_app. Qed.

Lemma api_steps_shapes_lists (items : list Item) : forall st,
  draw_list (api_steps (map CallShape items) st) = draw_list st ++ items
  /\ background_list (api_steps (map CallShape items) st)
     = background_list st ++ (if draw_background st then items else [])
  /\ draw_background (api_steps (map CallShape items) st) = draw_background st.
Proof.
  induction items as [|i items IH]; intros st; simpl.
  - destruct (draw_background st); now rewrite !app_nil_r.
  - destruct (IH (add_draw_item i st)) as (Hd & Hb & Hf).
    rewrite Hd, Hb, Hf. unfold add_draw_item.
    destruct (draw_background st) eqn:Hbg; simpl; rewrite ?Hbg, <- ?app_assoc;
      repeat split; reflexivity.
Qed.

(** X8.  Shapes built between [background_begin()] and [background_end()]
    go to the end of both lists, in building order; shapes built after
    [background_end()] go to the pending list only.  The mode the session
    was in before does not matter: [background_begin()] is a switch, not a
    counter. *)
Theorem capture_mode_splits_shapes (bs fs : list Item) (st : Data) :
  let st' := api_steps ([CallBackgroundBegin] ++ map CallShape bs
                        ++ [CallBackgroundEnd] ++ map CallShape fs) st in
  background_list st' = background_list st ++ bs
  /\ draw_list st' = draw_list st ++ bs ++ fs
  /\ draw_background st' = false.
Proof.
  intros st'. subst st'.
  rewrite !api_steps_app.
  set (st1 := api_steps [CallBackgroundBegin] st).
  destruct (api_steps_shapes_lists bs st1) as (Hd1 & Hb1 & Hf1).
  set (st2 := api_steps (map CallShape bs) st1) in *.
  set (st3 := api_steps [CallBackgroundEnd] st2).
  destruct (api_steps_shapes_lists fs st3) as (Hd3 & Hb3 & Hf3).
  rewrite Hd3, Hb3, Hf3. subst st3. simpl.
  rewrite Hd1, Hb1. subst st1. simpl.
  now rewrite app_nil_r, <- app_assoc.
Qed.

(** ** set_speed, again *)

(** X9.  Whatever integers are passed, the cooldown [set_speed] sets lies
    between 33 ms and 1806 ms, a higher speed never gives a longer cooldown,
    and of two calls in a row only the second counts.  The queue's elements
    and its timer are not touched. *)
Theorem set_speed_range_and_order (s1 s2 : Z) (st : Data) :
  (33 <= ms (set_speed s1 st) <= 1806)%Z
  /\ ((s1 <= s2)%Z -> (ms (set_speed s2 st) <= ms (set_speed s1 st))%Z)
  /\ set_speed s2 (set_speed s1 st) = set_speed s2 st
  /\ TimedQueue.elements (render_commands (set_speed s1 st))
     = TimedQueue.elements (render_commands st)
  /\ TimedQueue.time_since (render_commands (set_speed s1 st))
     = TimedQueue.time_since (render_commands st).
Proof.
  unfold set_speed. simpl.
  destruct (s1 <? 1)%Z eqn:H1, (10 <? s1)%Z eqn:H1', (s2 <? 1)%Z eqn:H2,
           (10 <? s2)%Z eqn:H2';
    rewrite ?Z.ltb_lt, ?Z.ltb_ge in *;
    repeat split; try lia.
Qed.

(** ** Leaving the window loop *)

Lemma poll_events_stays_stopped (evs : list (list Api * EventType)) : forall st,
  running st = false -> running (poll_events evs st) = false.
Proof.
  induction evs as [|[cs e] evs IH]; intros st Hoff; simpl; [exact Hoff|].
  apply IH. rewrite check_event_running, api_steps_running, Hoff.
  reflexivity.
Qed.

Lemma poll_events_close_after_done (evs : list (list Api * EventType)) :
  forall st,
  done st = true ->
  existsb (fun ce => is_quit (snd ce)) evs = true ->
  running (poll_events evs st) = false.
Proof.
  induction evs as [|[cs e] evs IH]; intros st Hd Hq; simpl in *;
    [discriminate|].
  assert (Hd' : done (api_steps cs st) = true)
    by (rewrite api_steps_done, Hd; apply orb_true_r).
  destruct (is_quit e) eqn:He; simpl in Hq.
  - apply poll_events_stays_stopped.
    rewrite check_event_running, He, Hd'. apply andb_false_r.
  - apply IH; [now rewrite check_event_done | exact Hq].
Qed.

Lemma window_loop_close_after_done (it : Iteration) (rest : list Iteration)
    (st : Data) :
  running st = true ->
  done st = true ->
  existsb (fun ce => is_quit (snd ce)) (polled it) = true ->
  window_loop (it :: rest) st = window_loop [it] st
  /\ match snd (window_loop (it :: rest) st) with
     | Exited st' => running st' = false /\ done st' = true
     | Crashed _ _ => True
     | Pending _ => False
     end.
Proof.
  intros Hon Hd Hq. simpl. rewrite Hon.
  set (r := render_section (fst (clock it)) (snd (clock it))
                           (api_steps (before_render it) st)).
  destruct (completion r) eqn:Hc; [|split; [reflexivity | exact I]].
  assert (Hdr : done (final r) = true).
  { subst r. destruct (render_section_flags (fst (clock it)) (snd (clock it))
                         (api_steps (before_render it) st)) as [_ ->].
    rewrite api_steps_done, Hd. apply orb_true_r. }
  pose proof (poll_events_close_after_done _ _ Hdr Hq) as Hoff.
  rewrite (window_loop_stopped rest _ Hoff), Hoff. simpl.
  split; [reflexivity|]. split; [exact Hoff|].
  rewrite poll_events_done, Hdr. apply orb_true_r.
Qed.

(** X10.  Once [done()] has been called, the first turn of the loop whose
    events include a window-close request is the last: the loop does not go
    on to later turns, and ends by leaving the loop with [running] false,
    unless a draw item's exception has ended it in that very turn. *)
Theorem close_after_done_ends_loop (it : Iteration) (rest : list Iteration)
    (st : Data) :
  running st = true ->
  done st = true ->
  existsb (fun ce => is_quit (snd ce)) (polled it) = true ->
  window_loop (it :: rest) st = window_loop [it] st
  /\ match snd (window_loop (it :: rest) st) with
     | Exited st' => running st' = false /\ done st' = true
     | Crashed _ _ => True
     | Pending _ => False
     end.
Proof. apply window_loop_close_after_done. Qed.

(** X11.  [start()] sets [running] and the background colour and nothing
    else: the [done] flag, the queue, the pending list and the background
    list are what they were.  A session started after [done()] has once been
    called therefore ends at the first window-close request, without a new
    call of [done()]. *)
Theorem start_keeps_done_flag (bg : string) (st : Data) (it : Iteration)
    (rest : list Iteration) :
  done st = true ->
  existsb (fun ce => is_quit (snd ce)) (polled it) = true ->
  running (start bg st) = true
  /\ done (start bg st) = true
  /\ render_commands (start bg st) = render_commands st
  /\ draw_list (start bg st) = draw_list st
  /\ background_list (start bg st) = background_list st
  /\ match snd (window_loop (it :: rest) (start bg st)) with
     | Exited st' => running st' = false
     | Crashed _ _ => True
     | Pending _ => False
     end.
Proof.
  intros Hd Hq. repeat split; try assumption.
  destruct (window_loop_close_after_done it rest (start bg st)) as [_ Hend];
    try assumption; try reflexivity.
  destruct (snd (window_loop (it :: rest) (start bg st))); tauto.
Qed.

(** ** One composite per turn *)

Lemma flip_count_app (tr1 tr2 : list Effect) :
  flip_count (tr1 ++ tr2) = (flip_count tr1 + flip_count tr2)%nat.
Proof. unfold flip_count. now rewrite List.filter_app, length_app. Qed.

Lemma flip_count_replay_guarded (items : list Item) :
  flip_count (replay_guarded items) = 0%nat.
Proof.
  induction items as [|i items IH]; [reflexivity|]. simpl.
  destruct (item_raises i); exact IH.
Qed.

Lemma flip_count_replay (items : list Item) :
  flip_count (fst (replay items)) = 0%nat.
Proof.
  induction items as [|i items IH]; [reflexivity|]. simpl.
  destruct (item_raises i); [reflexivity|].
  destruct (replay items) as [tr c]. exact IH.
Qed.

Lemma do_draw_flips (r : bool) (ls : ListRef) (st : Data) :
  effects (do_draw r ls st) <> []
  /\ flip_count (effects (do_draw r ls st))
     = match completion (do_draw r ls st) with
       | Returned => 1%nat
       | Raised _ => 0%nat
       end.
Proof.
  unfold do_draw. destruct r.
  - pose proof (flip_count_replay (background_list st)) as Hbg.
    destruct (replay (background_list st)) as [tr [|e]]; simpl in *.
    + split; [discriminate|].
      change (Fill (background st) :: tr ++ replay_guarded (fetch st ls) ++ [Flip])
        with ([Fill (background st)] ++ tr ++ replay_guarded (fetch st ls) ++ [Flip]).
      rewrite !flip_count_app, Hbg, flip_count_replay_guarded. reflexivity.
    + split; [discriminate|]. exact Hbg.
  - simpl. split; [now destruct (replay_guarded (fetch st ls))|].
    rewrite flip_count_app, flip_count_replay_guarded. reflexivity.
Qed.

(** X12.  One turn of the loop runs at most one composite: the rendering
    block flips the buffer at most once, flips exactly once when it runs a
    composite to its end, and has an effect on the window only when it has
    taken a command off the queue. *)
Theorem render_section_runs_one_composite (now1 now2 : float) (st : Data) :
  let r := render_section now1 now2 st in
  (flip_count (effects r) <= 1)%nat
  /\ (effects r <> [] <->
      (queue_length (final r) + 1)%nat = queue_length st)
  /\ (effects r <> [] -> completion r = Returned ->
      flip_count (effects r) = 1%nat).
Proof.
  intros r. subst r.
  pose proof (render_queue_length now1 now2 st) as Hlen.
  destruct (render_section_shape now1 now2 st)
    as [(q' & Hels & Heq) | (_ & c & rest & q' & Hels & Hrest & Heq)].
  - rewrite Heq in *. simpl in *. unfold queue_length in *. simpl in *.
    rewrite Hels. split; [unfold flip_count; simpl; lia|].
    split; [|congruence].
    split; [congruence | lia].
  - rewrite Heq in *.
    destruct (do_draw_flips (refresh c) (captured c) (with_queue q' st))
      as [Hne Hflips].
    split; [rewrite Hflips; destruct (completion _); lia|].
    split.
    + split; [intros _ | intros _; exact Hne].
      unfold queue_length. rewrite Hels.
      destruct (do_draw_final (refresh c) (captured c) (with_queue q' st))
        as [-> | ->].
      * simpl. rewrite Hrest. lia.
      * destruct (clear_list_frame (captured c) (with_queue q' st))
          as (_ & -> & _).
        simpl. rewrite Hrest. lia.
    + intros _ Hc. now rewrite Hflips, Hc.
Qed.

(** ** rectangle *)

(** X13.  For a width and a height that are not negative, and whatever the
    rotation point, the scratch surface has a size that is not negative, and
    the rectangle [rectangle] draws on it lies inside it and has eight times
    the width and height asked for. *)
Theorem rectangle_fits_scratch (x_pos y_pos width height stroke : Z)
    (rotation_point : RotationPoint) (rotated : Z * Z) :
  (0 <= width)%Z ->
  (0 <= height)%Z ->
  let p := rectangle x_pos y_pos width height stroke rotation_point rotated in
  match drawn_rect p with
  | (rx, ry, rw, rh) =>
      (0 <= rx /\ 0 <= ry /\ 0 <= rw /\ 0 <= rh
       /\ rx + rw <= fst (scratch_size p)
       /\ ry + rh <= snd (scratch_size p)
       /\ rw = width * 8 /\ rh = height * 8)%Z
  end.
Proof.
  intros Hw Hh.
  unfold rectangle, rotation_offset_center, nRenderRatio.
  destruct rotation_point; simpl; repeat split;
    try (Z.div_mod_to_equations; lia).
Qed.

(** X14.  When rotation leaves the surface at the size of the scratch
    surface, as a rotation by 0 degrees does, the rectangle lands with its
    top left corner on [(x_pos, y_pos)], whatever the rotation point. *)
Theorem rectangle_unrotated_placement (x_pos y_pos width height stroke : Z)
    (rotation_point : RotationPoint) (rotated : Z * Z) :
  let p := rectangle x_pos y_pos width height stroke rotation_point rotated in
  rotated = scratch_size p ->
  match drawn_rect p with
  | (rx, ry, _, _) =>
      (fst (blit_at p) * 8 + rx = x_pos * 8
       /\ snd (blit_at p) * 8 + ry = y_pos * 8)%Z
  end
  /\ (fst (scaled_size p) * 8 = fst (scratch_size p)
      /\ snd (scaled_size p) * 8 = snd (scratch_size p))%Z.
Proof.
  intros p Hrot. subst p. unfold rectangle in *. simpl in *. subst rotated.
  unfold nRenderRatio. simpl.
  rewrite !Z.div_mul by discriminate.
  rewrite !Z.sub_diag. change (0 / 2)%Z with 0%Z.
  repeat split; lia.
Qed.

(** X15.  Under the same condition the centre of the scratch surface, the
    point pygame rotates about, lands on the rotation point: always for an
    explicit point and for [CENTER], and for the four corners when width and
    height are even.  (For odd sizes floor division puts the left and top
    pivots one pixel outside, the right and bottom ones one pixel inside.) *)
Theorem rectangle_pivot_is_scratch_centre
    (x_pos y_pos width height stroke : Z)
    (rotation_point : RotationPoint) (rotated : Z * Z) :
  let p := rectangle x_pos y_pos width height stroke rotation_point rotated in
  rotated = scratch_size p ->
  match rotation_point with
  | POINT _ _ | CENTER => True
  | _ => Z.even width = true /\ Z.even height = true
  end ->
  (fst (blit_at p) + fst (scaled_size p) / 2,
   snd (blit_at p) + snd (scaled_size p) / 2)%Z
  = pivot_of x_pos y_pos width height rotation_point.
Proof.
  intros p Hrot Heven. subst p. unfold rectangle in *. simpl in *.
  subst rotated. unfold nRenderRatio. simpl.
  rewrite !Z.div_mul by discriminate.
  rewrite !Z.sub_diag. change (0 / 2)%Z with 0%Z.
  unfold rotation_offset_center, pivot_of.
  destruct rotation_point; simpl;
    repeat match goal with
           | H : _ /\ _ |- _ => destruct H
           | H : Z.even _ = true |- _ =>
               apply Z.even_spec in H; destruct H as [? ->]
           end;
    f_equal; Z.div_mod_to_equations; lia.
Qed.

(** For an odd width the left pivots are one pixel to the left of the
    rectangle. *)
Example rectangle_odd_width_pivot :
  let p := rectangle 100 50 5 4 0 BOTTOM_LEFT (88, 64)%Z in
  scratch_size p = (88, 64)%Z
  /\ (fst (blit_at p) + fst (scaled_size p) / 2)%Z = 99%Z.
Proof. by_evaluation. Qed.

(** ** Polygons *)

Lemma add_poly_points_spec (pts : list (Z * Z)) : forall p : PolygonState,
  poly_points (add_poly_points pts p) = poly_points p ++ pts
  /\ poly_width (add_poly_points pts p) = poly_width p.
Proof.
  induction pts as [|[x y] pts IH]; intros p; simpl.
  - now rewrite app_nil_r.
  - destruct (IH (add_poly_point x y p)) as [-> ->]. simpl.
    now rewrite <- app_assoc.
Qed.

(** X16.  A polygon built by [polygon_begin(stroke)], points, and
    [polygon_end()] has exactly those points, in the order they were added,
    the stroke given at the beginning and the colour current at the end,
    whatever was left over from earlier polygons.  [polygon_end()] does not
    start afresh: points added after it, without a new [polygon_begin()],
    come on top of the earlier ones. *)
Theorem polygon_build (stroke : Z) (pts more : list (Z * Z))
    (p : PolygonState) (st st' : Data) :
  let p1 := add_poly_points pts (polygon_begin stroke p) in
  polygon_end st p1
  = {| polygon_color := color st; polygon_points := pts;
       polygon_width := stroke |}
  /\ polygon_end st' (add_poly_points more p1)
     = {| polygon_color := color st'; polygon_points := pts ++ more;
          polygon_width := stroke |}.
Proof.
  intros p1. subst p1. unfold polygon_end.
  destruct (add_poly_points_spec more
              (add_poly_points pts (polygon_begin stroke p))) as [-> ->].
  destruct (add_poly_points_spec pts (polygon_begin stroke p)) as [-> ->].
  split; reflexivity.
Qed.

(** ** The further properties on concrete inputs *)

(** X1 at work: a queue with a cooldown of 1 s holding one element is
    polled at 0.25 s and, after a push, at 0.5 s. *)
Lemma closed_polls_accumulate_witness :
  let q := TimedQueue.push 7%nat (TimedQueue.init 1000) in
  let ops := [TimedQueue.Pop 0.25 0.25; TimedQueue.Push 8%nat;
              TimedQueue.Pop 0.5 0.5]%float in
  TimedQueue.elements (snd (TimedQueue.run ops q)) = [7%nat; 8%nat]
  /\ TimedQueue.time_since (snd (TimedQueue.run ops q)) = 0.5%float.
Proof.
  intros q ops.
  assert (Hclosed : polls_closed ops q)
    by (repeat split; vm_compute; reflexivity).
  destruct (closed_polls_accumulate ops q Hclosed)
    as (_ & Hels & _ & Htime & _).
  split; [exact Hels | exact Htime].
Defined.

(** X2 at work: the gate opens at 2 s; at 2.75 s the difference is 0.75 s
    and the gate is closed. *)
Lemma gate_openings_are_spaced_witness :
  let q := TimedQueue.push 7%nat (TimedQueue.init 1000) in
  TimedQueue.gate 2.75 (snd (TimedQueue.pop 2 2 q)) = false.
Proof.
  intros q.
  exact (proj1 (gate_openings_are_spaced q 2 2 2.75 2.75 eq_refl))%float.
Defined.

(** X3 at work: half a second has accumulated against a cooldown of 1 s;
    the cooldown is set to 250 ms and the next poll, at 0.5 s again, hands
    out the head. *)
Lemma set_cooldown_applies_at_next_poll_witness :
  let q := TimedQueue.push 7%nat (TimedQueue.init 1000) in
  let q1 := TimedQueue.set_cooldown 250
              (snd (TimedQueue.run [TimedQueue.Pop 0.5 0.5]%float q)) in
  fst (TimedQueue.pop 0.5 0.5 q1) = Some 7%nat.
Proof.
  intros q q1.
  assert (Hclosed : polls_closed [TimedQueue.Pop 0.5 0.5]%float q)
    by (repeat split; vm_compute; reflexivity).
  apply (set_cooldown_applies_at_next_poll
           [TimedQueue.Pop 0.5 0.5]%float q 250 0.5 0.5 7%nat Hclosed).
  split; reflexivity.
Defined.

(** X7 at work: a shape is pending at [draw()], another is built before
    the render thread gets to the composite; the composite calls the
    first. *)
Lemma draw_items_reach_the_window_witness :
  let a := {| item_id := 1; item_raises := None |} in
  let b := {| item_id := 2; item_raises := None |} in
  calls (effects
           (render_section 2 2
              (acts [Caller (CallShape b)]
                 (draw (acts [Caller (CallShape a)]
                          (start "white" Data_init))))))
  = [a].
Proof.
  intros a b.
  refine (proj1 (draw_items_reach_the_window "white"
                   [Caller (CallShape a)] [Caller (CallShape b)] 2 2 _ _));
    reflexivity.
Defined.

(** X10 at work: [done()] has been called, the first turn delivers a close
    request, and the second turn does not take place. *)
Lemma close_after_done_ends_loop_witness :
  let it := {| before_render := []; clock := (2, 2)%float;
               polled := [([], OTHER 1); ([], QUIT)] |} in
  let later := {| before_render := [CallDraw]; clock := (4, 4)%float;
                  polled := [] |} in
  let st := done_ (start "white" Data_init) in
  window_loop [it; later] st = window_loop [it] st.
Proof.
  intros it later st.
  refine (proj1 (close_after_done_ends_loop it [later] st _ _ _));
    reflexivity.
Defined.

(** X11 at work: a second session, started after the first was ended by
    [done()], closes at the first request. *)
Lemma start_keeps_done_flag_witness :
  let it := {| before_render := []; clock := (2, 2)%float;
               polled := [([], QUIT)] |} in
  let st := done_ (start "white" Data_init) in
  done (start "grey" st) = true.
Proof.
  intros it st.
  destruct (start_keeps_done_flag "grey" st it [] eq_refl eq_refl)
    as (_ & Hd & _).
  exact Hd.
Defined.

(** X13 at work: a rectangle of 5 by 4 at (100, 50), pivot at the bottom
    left corner. *)
Lemma rectangle_fits_scratch_witness :
  let p := rectangle 100 50 5 4 0 BOTTOM_LEFT (88, 64)%Z in
  (48 + 40 <= fst (scratch_size p) /\ 0 + 32 <= snd (scratch_size p))%Z.
Proof.
  intros p.
  pose proof (rectangle_fits_scratch 100 50 5 4 0 BOTTOM_LEFT (88, 64)%Z
                ltac:(lia) ltac:(lia)) as Hfit.
  simpl in Hfit. destruct Hfit as (_ & _ & _ & _ & Hx & Hy & _).
  split; [exact Hx | exact Hy].
Defined.

(** X14 and X15 at work: a rectangle of 6 by 4 at (100, 50), pivot at the
    bottom left corner, not rotated. *)
Lemma rectangle_unrotated_placement_witness :
  let p := rectangle 100 50 6 4 0 BOTTOM_LEFT (96, 64)%Z in
  (fst (scaled_size p) * 8 = fst (scratch_size p))%Z.
Proof.
  intros p.
  destruct (rectangle_unrotated_placement 100 50 6 4 0 BOTTOM_LEFT (96, 64)%Z
              eq_refl) as [_ [Hw _]].
  exact Hw.
Defined.

Lemma rectangle_pivot_is_scratch_centre_witness :
  let p := rectangle 100 50 6 4 0 BOTTOM_LEFT (96, 64)%Z in
  (fst (blit_at p) + fst (scaled_size p) / 2,
   snd (blit_at p) + snd (scaled_size p) / 2)%Z
  = (100, 54)%Z.
Proof.
  intros p.
  exact (rectangle_pivot_is_scratch_centre 100 50 6 4 0 BOTTOM_LEFT
           (96, 64)%Z eq_refl (conj eq_refl eq_refl)).
Defined.

(** X17 at work: a composite flushed by [draw()] whose first item raises: the failure is
    printed and the second item is still called. *)
Lemma captured_failures_are_isolated_witness :
  let bad := {| item_id := 1; item_raises := Some "bad shape"%string |} in
  let good := {| item_id := 2; item_raises := None |} in
  let st := api_steps [CallShape bad; CallShape good; CallDraw]
                      (start "white" Data_init) in
  calls (effects (do_draw false (Snapshot 0) st)) = [bad; good]
  /\ prints (effects (do_draw false (Snapshot 0) st))
     = [render_error "bad shape"]
  /\ last (effects (do_draw false (Snapshot 0) st)) = Some Flip.
Proof.
  intros bad good st.
  destruct (captured_failures_are_isolated false (Snapshot 0) st
              (or_introl eq_refl)) as (_ & Hcalls & Hprints & Hlast).
  repeat split; assumption.
Defined.



(** X20 at work: a refresh with one background shape and nothing pending. *)
Lemma redraw_composite_on_empty_list_witness :
  let b := {| item_id := 1; item_raises := None |} in
  let st := final (render_section 2 2
                     (api_steps [CallBackgroundBegin; CallShape b;
                                 CallBackgroundEnd; CallDraw]
                                (start "white" Data_init))) in
  effects (do_draw true PendingList st) = [Fill "white"; Call b; Flip].
Proof.
  intros b st.
  exact (redraw_composite_on_empty_list st eq_refl eq_refl).
Defined.
